(** * Air-crash dashboard: loader and filter/aggregate pipeline

    A shallow embedding of [air.py].  The program is a linear pandas
    script: [load_data] cleans a CSV into one canonical table, the sidebar
    selections filter it, and five group-by aggregates feed the charts.

    Conventions of the embedding.
    - A pandas cell that can be NaN/None/NaT is an [option]; [None] is the
      null value.
    - The numeric columns hold integer-valued numbers (the data model of the
      program: years, days, head counts), so a number is a [Z].  The outcome
      of [pd.to_numeric(..., errors='coerce')] is given per cell as an
      [option Z]: [None] for a missing or unparseable cell.
    - A text cell is a [string].  A column name is a list of characters of
      the string back-end, whose [strip] and [lower] are Unicode-aware: the
      chain of line 10 is written over these methods, with the ASCII
      characters as one instance.
    - A data frame is the list of its rows, in row order; a Series indexed
      by group keys is the list of its (key, value) pairs, in index order.
    - pandas defaults are written out where the script relies on them:
      [groupby(sort=True, dropna=True)], [sum(skipna=True, min_count=0)],
      [nlargest(keep='first')], [cut(right=True)],
      [drop_duplicates(keep='first')].  The default of [groupby]'s
      [observed] argument differs between pandas versions ([False] up to
      2.x, [True] from 3.0) and the script neither passes the argument nor
      fixes a version: it is a parameter of the decade aggregate. *)

From Stdlib Require Import ZArith String Ascii.
From stdpp Require Import base option list strings gmap sorting.

#[local] Set Warnings "-clear-no-such-hyp".

Local Open Scope string_scope.
Local Open Scope list_scope.
Local Open Scope Z_scope.

(** ** Column-name normalisation (lines 10-12) *)

Module ColumnNames.

(** The methods of the chain belong to the string back-end of pandas
    (Python's [str], or Arrow's UTF-8 kernels), not to the script.  A name
    is a list of characters (Unicode code points); [isspace] tells which
    characters [strip] trims; [lower] is [str.lower] on a whole name (one
    character may become several, and the result may depend on the
    neighbours); [space], [underscore], [lparen], [rparen] and [slash] are
    the five characters that the script writes out. *)
Record StringMethods := {
  char : Type;
  char_eq_dec : EqDecision char;
  isspace : char → bool;
  lower : list char → list char;
  space : char;
  underscore : char;
  lparen : char;
  rparen : char;
  slash : char
}.

#[global] Existing Instance char_eq_dec.

Section chain.
Context (M : StringMethods).
Implicit Types s new : list (char M).

Fixpoint lstrip s : list (char M) :=
  match s with
  | [] => []
  | c :: s' => if isspace M c then lstrip s' else s
  end.

Fixpoint rstrip s : list (char M) :=
  match s with
  | [] => []
  | c :: s' =>
      match rstrip s' with
      | [] => if isspace M c then [] else [c]
      | t => c :: t
      end
  end.

(** [.str.strip()] *)
Definition strip s : list (char M) := rstrip (lstrip s).

(** [.str.replace(old, new)] for a one-character [old], as in all four
    calls of the script (a literal replacement: none of the four characters
    is treated as a pattern). *)
Fixpoint replace (old : char M) new s : list (char M) :=
  match s with
  | [] => []
  | c :: s' =>
      if decide (c = old) then new ++ replace old new s'
      else c :: replace old new s'
  end.

(** The whole chain applied to one column name. *)
Definition normalize s : list (char M) :=
  replace (slash M) [underscore M]
    (replace (rparen M) []
       (replace (lparen M) []
          (replace (space M) [underscore M] (lower M (strip s))))).

(** The four characters that the chain removes or replaces. *)
Definition special : list (char M) :=
  [space M; lparen M; rparen M; slash M].

(** A name whose only whitespace characters are plain spaces. *)
Definition plain_whitespace s : bool :=
  forallb (λ c, negb (isspace M c) || bool_decide (c = space M)) s.

End chain.

(** What the properties of the chain need of the two library methods; all
    four are facts of Unicode case mapping and of the five characters.
    - No character of a lower-cased name is changed by lower-casing, nor is
      the underscore: a name made of such characters is unchanged by
      [lower].
    - [lower] brings in no whitespace: a whitespace character of the
      lower-cased name was in the name.
    - The underscore is not whitespace, and is none of the four characters
      that the chain removes or replaces. *)
Record Lawful (M : StringMethods) : Prop := {
  lower_settles : ∀ x y : list (char M),
    (∀ c, c ∈ y → c ∈ lower M x ∨ c = underscore M) → lower M y = y;
  lower_no_new_space : ∀ (x : list (char M)) (c : char M),
    c ∈ lower M x → isspace M c = true → c ∈ x;
  underscore_not_space : isspace M (underscore M) = false;
  underscore_not_special : underscore M ∉ special M
}.

(** *** The methods on ASCII names *)

(** [str.isspace] on an ASCII character: space, \t \n \v \f \r and the four
    separators 0x1c-0x1f. *)
Definition ascii_isspace (c : ascii) : bool :=
  let n := N_of_ascii c in
  ((n =? 32) || ((9 <=? n) && (n <=? 13)) || ((28 <=? n) && (n <=? 31)))%N.

Definition ascii_isupper (c : ascii) : bool :=
  let n := N_of_ascii c in ((65 <=? n) && (n <=? 90))%N.

(** [str.lower] on an ASCII character. *)
Definition lower_char (c : ascii) : ascii :=
  if ascii_isupper c then ascii_of_N (N_of_ascii c + 32) else c.

(** The string methods restricted to names of ASCII characters (codes
    below 128), where they are the same in every back-end. *)
Definition ascii_methods : StringMethods :=
  {| char := ascii;
     char_eq_dec := _;
     isspace := ascii_isspace;
     lower := fmap lower_char;
     space := " "%char;
     underscore := "_"%char;
     lparen := "("%char;
     rparen := ")"%char;
     slash := "/"%char |}.

(** The chain on an ASCII name written as a string. *)
Definition normalize_ascii (s : string) : string :=
  string_of_list_ascii (normalize ascii_methods (list_ascii_of_string s)).

(** A header cell with a tab right after an opening parenthesis. *)
Definition tab_name : string := String "(" (String "009" "air)").

End ColumnNames.

(** ** Month mapping (lines 27-32) *)

Definition month_map : gmap string Z :=
  list_to_map
    [ ("January", 1); ("Feburary", 2); ("February", 2); ("March", 3);
      ("April", 4); ("May", 5); ("June", 6); ("July", 7); ("August", 8);
      ("September", 9); ("October", 10); ("November", 11);
      ("December", 12) ].

(** [Series.map(dict)]: a null cell stays null, a key that the dict lacks
    gives null. *)
Definition map_dict (d : gmap string Z) (cell : option string) : option Z :=
  cell ≫= λ name, d !! name.

(** ** Decade binning (lines 42-48) *)

Definition bins : list Z :=
  [1908; 1920; 1932; 1944; 1956; 1968; 1980; 1992; 2004; 2016; 2020; 2024].

Definition labels : list string :=
  [ "Early 1910s"; "Mid 1920s"; "Late 1930s"; "Early 1940s";
    "Mid 1950s"; "Late 1960s"; "Early 1970s"; "Late 1980s";
    "Early 2000s"; "Mid 2010s"; "Early 2020s" ].

(** [numpy.searchsorted(a, x, side='left')] on an ascending [a]: the number
    of leading elements strictly below [x]. *)
Fixpoint searchsorted_left (a : list Z) (x : Z) : nat :=
  match a with
  | [] => 0%nat
  | b :: a' => if b <? x then S (searchsorted_left a' x) else 0%nat
  end.

(** [pd.cut(x, bins, labels=labels, include_lowest=True)] with the default
    [right=True], cell by cell: the bin index comes from [searchsorted], a
    value equal to the first edge is put in the first bin, an index of [0] or
    [len(bins)] is out of range and gives null. *)
Definition cut (bins : list Z) (labels : list string) (x : option Z)
    : option string :=
  x ≫= λ y,
    let ids := searchsorted_left bins y in
    let ids := if decide (Some y = head bins) then 1%nat else ids in
    if decide (ids = length bins ∨ ids = 0%nat) then None
    else labels !! (ids - 1)%nat.

(** ** The table *)

(** One row of the CSV as [read_csv] and the five [pd.to_numeric] calls see
    it.  [raw_quarter] is the optional [quarter] column: where the file has
    no such column every cell is null, which the script treats alike (no
    options, hence no filter).  [raw_extra] holds the cells of the
    pass-through columns. *)
Record RawRow := {
  raw_country_region : option string;
  raw_operator : option string;
  raw_aircraft_manufacturer : option string;
  raw_year : option Z;
  raw_day : option Z;
  raw_abroad : option Z;
  raw_fatalities_air : option Z;
  raw_ground : option Z;
  raw_quarter : option string;
  raw_month : option string;
  raw_extra : list (option string)
}.

(** The first day of a month, as [month_date] holds it. *)
Record Timestamp := { ts_year : Z; ts_month : Z }.

(** One row of the canonical table. *)
Record Row := {
  country_region : option string;
  operator : option string;
  aircraft_manufacturer : option string;
  year : option Z;
  day : option Z;
  abroad : option Z;
  fatalities_air : option Z;
  ground : option Z;
  quarter : option string;
  month : option string;
  month_num : option Z;
  month_date : option Timestamp;
  month_name : option string;
  year_bin : option string;
  extra : list (option string)
}.

#[global] Instance Timestamp_eq_dec : EqDecision Timestamp.
Proof. solve_decision. Defined.

#[global] Instance Row_eq_dec : EqDecision Row.
Proof. solve_decision. Defined.

(** [Series.fillna(value)] *)
Definition fillna (value : string) (cell : option string) : option string :=
  Some (default value cell).

(** The first of month [m] of year [y] lies within the span of a pandas
    timestamp of nanosecond resolution (1677-09-21 to 2262-04-11).  A
    pandas that holds dates at a coarser resolution accepts more years; no
    statement below depends on a year outside the span being refused. *)
Definition in_timestamp_bounds (y m : Z) : bool :=
  (1 <=? m) && (m <=? 12) &&
  (((1677 <? y) && (y <? 2262))
   || ((y =? 1677) && (10 <=? m))
   || ((y =? 2262) && (m <=? 4))).

(** [pd.to_datetime(dict(year=..., month=..., day=1), errors="coerce")]: a
    null component or a date that cannot be represented gives NaT. *)
Definition to_datetime (y m : option Z) : option Timestamp :=
  y ≫= λ y, m ≫= λ m,
    if in_timestamp_bounds y m then Some {| ts_year := y; ts_month := m |}
    else None.

(** The English month names, in calendar order: what [dt.month_name()]
    returns, and the list the monthly chart reindexes onto (lines 137-138). *)
Definition calendar : list string :=
  [ "January"; "February"; "March"; "April"; "May"; "June";
    "July"; "August"; "September"; "October"; "November"; "December" ].

(** [Series.dt.month_name()] *)
Definition dt_month_name (d : option Timestamp) : option string :=
  d ≫= λ t, calendar !! Z.to_nat (ts_month t - 1).

(** Lines 15-48 on one row: every assignment [df[col] = ...] of [load_data]
    works cell by cell. *)
Definition load_row (r : RawRow) : Row :=
  let month_num := map_dict month_map (raw_month r) in
  let month_date := to_datetime (raw_year r) month_num in
  {| country_region := fillna "Unknown" (raw_country_region r);
     operator := fillna "Unknown" (raw_operator r);
     aircraft_manufacturer := fillna "Unknown" (raw_aircraft_manufacturer r);
     year := raw_year r;
     day := raw_day r;
     abroad := raw_abroad r;
     fatalities_air := raw_fatalities_air r;
     ground := raw_ground r;
     quarter := raw_quarter r;
     month := raw_month r;
     month_num := month_num;
     month_date := month_date;
     month_name := dt_month_name month_date;
     year_bin := cut bins labels (raw_year r);
     extra := raw_extra r |}.

(** [df.drop_duplicates()]: of rows equal in every column the first one
    stays (nulls compare equal).  [seen] are the rows met so far. *)
Fixpoint drop_duplicates_from (seen : list Row) (df : list Row)
    : list Row :=
  match df with
  | [] => []
  | r :: df' =>
      if decide (r ∈ seen) then drop_duplicates_from seen df'
      else r :: drop_duplicates_from (r :: seen) df'
  end.

Definition drop_duplicates (df : list Row) : list Row :=
  drop_duplicates_from [] df.

Definition load_data (csv : list RawRow) : list Row :=
  drop_duplicates (load_row <$> csv).

(** ** Filters (lines 63-79) *)

Inductive Key := KYear | KQuarter | KMonth.

(** A value of a filter column: a number for [year], text for the others. *)
Inductive Value := VNum (n : Z) | VStr (s : string).

#[global] Instance Key_eq_dec : EqDecision Key.
Proof. solve_decision. Defined.

#[global] Instance Value_eq_dec : EqDecision Value.
Proof. solve_decision. Defined.

(** [df[key]] on one row. *)
Definition column (key : Key) (r : Row) : option Value :=
  match key with
  | KYear => VNum <$> year r
  | KQuarter => VStr <$> quarter r
  | KMonth => VStr <$> month r
  end.

(** [Series.unique()]: the distinct values in order of first appearance. *)
Fixpoint unique `{EqDecision A} (l : list A) : list A :=
  match l with
  | [] => []
  | x :: l' => x :: filter (λ y, y ≠ x) (unique l')
  end.

(** The options offered per key: [df[key].dropna().unique().tolist()]. *)
Definition filters (df : list Row) : list (Key * list Value) :=
  (λ key, (key, unique (omap (column key) df))) <$> [KYear; KQuarter; KMonth].

(** The order of [sorted(options)]: numbers by value, text by code point
    (the options of one key are all of one kind). *)
Definition value_le (a b : Value) : Prop :=
  match a, b with
  | VNum m, VNum n => m ≤ n
  | VStr s, VStr t => String.leb s t
  | _, _ => True
  end.

#[global] Instance value_le_dec : RelDecision value_le.
Proof. intros [m|s] [n|t]; simpl; apply _. Defined.

Definition sorted (options : list Value) : list Value :=
  merge_sort value_le options.

(** Lines 70-73.  [multiselect key options] is what the user picked in the
    widget of [key] among the options shown; a key without options gets no
    entry. *)
Definition selected_filters (multiselect : Key → list Value → list Value)
    (df : list Row) : list (Key * list Value) :=
  omap (λ '(key, options),
          match options with
          | [] => None
          | _ => Some (key, multiselect key (sorted options))
          end) (filters df).

(** [filtered_df[filtered_df[key].isin(selected_values)]]: a null cell is in
    no selection. *)
Definition isin (key : Key) (selected_values : list Value) (r : Row) : bool :=
  match column key r with
  | Some v => bool_decide (v ∈ selected_values)
  | None => false
  end.

(** Lines 76-79: the loop over the selections, an empty selection being
    skipped. *)
Definition apply_filters (selected : list (Key * list Value))
    (df : list Row) : list Row :=
  foldl (λ filtered_df '(key, selected_values),
           match selected_values with
           | [] => filtered_df
           | _ => filter (λ r, isin key selected_values r = true) filtered_df
           end) df selected.

(** ** Aggregates (lines 99-170) *)

(** A Series of totals indexed by group key; a value is null after a
    [reindex] onto a key that has no group. *)
Abbreviation Series K := (list (K * option Z)).

(** [.sum()] of a column of one group: nulls are skipped, the empty sum is
    0.  The sum is the exact one: pandas adds in int64 or float64, which
    agrees with it as long as the numbers stay within the range where
    those are exact (see [exact_sums] for the statements that depend on
    the value of a sum). *)
Definition sum_skipna (cells : list (option Z)) : Z :=
  foldr (λ cell acc, default 0 cell + acc) 0 cells.

(** The rows of the group of [k]. *)
Definition group `{EqDecision K} (by_ : Row → option K) (k : K)
    (df : list Row) : list Row :=
  filter (λ r, by_ r = Some k) df.

(** The total of the group of [k]: [fatalities_air] summed over its rows. *)
Definition total `{EqDecision K} (by_ : Row → option K) (df : list Row)
    (k : K) : Z :=
  sum_skipna (fatalities_air <$> group by_ k df).

(** [df.groupby(by)["fatalities_air"].sum()] for a plain (non-categorical)
    key column: one group per distinct non-null key, keys in ascending
    order ([sort_keys]). *)
Definition groupby_sum `{EqDecision K} (sort_keys : list K → list K)
    (by_ : Row → option K) (df : list Row) : Series K :=
  (λ k, (k, Some (total by_ df k)))
    <$> sort_keys (unique (omap by_ df)).

(** The same for a categorical key column with categories [categories]:
    the groups follow the order of the categories; with [observed=True]
    only the categories that occur in the frame have a group, with
    [observed=False] every category has one, whether or not a row falls in
    it. *)
Definition groupby_categorical_sum (observed : bool)
    (categories : list string) (by_ : Row → option string) (df : list Row)
    : Series string :=
  (λ k, (k, Some (total by_ df k)))
    <$> (if observed
         then filter (λ k, Some k ∈ by_ <$> df) categories
         else categories).

(** Stable insertion by descending value: [x] goes before the first entry
    that is not strictly larger. *)
Fixpoint insert_desc {K} (x : K * Z) (l : list (K * Z)) : list (K * Z) :=
  match l with
  | [] => [x]
  | y :: l' => if x.2 <? y.2 then y :: insert_desc x l' else x :: l
  end.

Definition sort_desc {K} (l : list (K * Z)) : list (K * Z) :=
  foldr insert_desc [] l.

(** [Series.nlargest(n)] with [keep='first']: the non-null entries by
    descending value, equal values in index order, the null entries after
    them, cut to [n] entries. *)
Definition nlargest {K} (n : nat) (s : Series K) : Series K :=
  take n
    (((λ p, (p.1, Some p.2)) <$> sort_desc (omap (λ p, (p.1,.) <$> p.2) s))
     ++ filter (λ p, p.2 = None) s).

(** [Series.reindex(index)]: the value of each new key, null where the
    Series has none. *)
Definition reindex `{EqDecision K} (index : list K) (s : Series K)
    : Series K :=
  (λ k, (k, (list_find (λ p, p.1 = k) s) ≫= λ ip, ip.2.2)) <$> index.

(** [.reset_index().dropna()]: the Series becomes a two-column frame, whose
    rows with a null cell are dropped; the key column has no null. *)
Definition dropna {K} (s : Series K) : Series K :=
  filter (λ p, is_Some p.2) s.

Definition sort_Z : list Z → list Z := merge_sort Z.le.
Definition sort_string : list string → list string :=
  merge_sort (λ a b, String.leb a b).

(** Lines 99-104 *)
Definition crashes_per_year (filtered_df : list Row) : Series Z :=
  nlargest 5 (groupby_sum sort_Z year filtered_df).

(** Lines 119-122 *)
Definition top_countries (filtered_df : list Row) : Series string :=
  nlargest 5 (groupby_sum sort_string country_region filtered_df).

(** Lines 133-142 *)
Definition monthly_fatalities (filtered_df : list Row) : Series string :=
  dropna (reindex calendar (groupby_sum sort_string month_name filtered_df)).

(** Lines 152-155 *)
Definition top_manufacturers (filtered_df : list Row) : Series string :=
  nlargest 5 (groupby_sum sort_string aircraft_manufacturer filtered_df).

(** Lines 165-170.  [year_bin] is the categorical made by [cut], with the
    eleven [labels] as its categories.  [observed] is the default that the
    installed pandas gives to the [observed] argument of [groupby], which
    the call leaves out: [true] from pandas 3.0, [false] before. *)
Definition decade_counts (observed : bool) (filtered_df : list Row)
    : Series string :=
  dropna (groupby_categorical_sum observed labels year_bin filtered_df).


(** ** Reference predicates and sample data for the statements *)

(** The filter as the specification words it: for every field with a
    non-empty set of allowed values, the row's value is one of them. *)
Definition satisfies (selected : list (Key * list Value)) (r : Row) : Prop :=
  ∀ key values, (key, values) ∈ selected → values ≠ [] →
    ∃ v, column key r = Some v ∧ v ∈ values.

(** The same as a test on one row: the conjunction over the fields. *)
Definition keeps (selected : list (Key * list Value)) (r : Row) : bool :=
  forallb (λ '(key, values),
             match values with [] => true | _ => isin key values r end)
    selected.

(** A row of the file with the given year, month and fatalities, and no
    other cell filled in. *)
Definition crash (y : Z) (m : string) (f : option Z) : RawRow :=
  {| raw_country_region := None; raw_operator := None;
     raw_aircraft_manufacturer := None;
     raw_year := Some y; raw_day := None; raw_abroad := None;
     raw_fatalities_air := f; raw_ground := None;
     raw_quarter := None; raw_month := Some m; raw_extra := [] |}.

(** The file behind the per-year sums 1985: 520, 1977: 346, 2001: 2996,
    1988: 270, 1996: 349, 1972: 1 (the 1985 sum comes from two rows). *)
Definition six_years : list RawRow :=
  [ crash 1985 "August" (Some 500); crash 1977 "March" (Some 346);
    crash 2001 "September" (Some 2996); crash 1988 "December" (Some 270);
    crash 1985 "August" (Some 20); crash 1996 "July" (Some 349);
    crash 1972 "October" (Some 1) ].

(** A file whose rows fall in October and March only. *)
Definition two_months : list RawRow :=
  [ crash 1977 "October" (Some 5); crash 1977 "March" (Some 346);
    crash 1985 "October" None; crash 1996 "October" (Some 7) ].


(** A file with a crash in March 1977 and one in August 1985, and the user
    picking 1977 in the year widget and August in the month widget: both
    are offered, and no row has both. *)
Definition two_crashes : list RawRow :=
  [ crash 1977 "March" (Some 346); crash 1985 "August" (Some 520) ].


(** A decade chart with a zero in every bin. *)
Definition all_bins_zero : Series string := (λ k, (k, Some 0)) <$> labels.

(** ** Metrics and chart guards (lines 86-95, 107, 144) *)

(** [len(filtered_df)] *)
Definition no_of_fatalities (filtered_df : list Row) : nat :=
  length filtered_df.

(** [filtered_df["year"].sum()]; the [int(...)] of line 93 changes nothing
    on an integer-valued sum. *)
Definition total_year (filtered_df : list Row) : Z :=
  sum_skipna (year <$> filtered_df).

(** [filtered_df["fatalities_air"].sum()] *)
Definition sum_of_fatalities (filtered_df : list Row) : Z :=
  sum_skipna (fatalities_air <$> filtered_df).

(** [Series.nunique()]: the number of distinct non-null values. *)
Definition nunique `{EqDecision A} (cells : list (option A)) : nat :=
  length (unique (omap id cells)).

(** Line 89.  [aircraft] is the position of the [aircraft] column among the
    pass-through columns, [None] where the file has no such column. *)
Definition no_of_aircrafts (aircraft : option nat) (filtered_df : list Row)
    : nat :=
  match aircraft with
  | Some i => nunique ((λ r, extra r !! i ≫= id) <$> filtered_df)
  | None => 0%nat
  end.

(** [DataFrame.empty] *)
Definition frame_empty {A} (frame : list A) : bool :=
  match frame with [] => true | _ => false end.

(** Line 107: the bar chart of the top years is drawn, rather than the
    "No data to display" notice. *)
Definition top_years_chart_shown (filtered_df : list Row) : bool :=
  negb (frame_empty (crashes_per_year filtered_df)).

(** Line 144: the order of the month axis,
    [list(monthly_fatalities["month_name"])]. *)
Definition month_axis (filtered_df : list Row) : list string :=
  (monthly_fatalities filtered_df).*1.

(** The values of a Series added up (what a chart of the Series shows in
    all). *)
Definition series_total {K} (s : Series K) : Z := sum_skipna s.*2.

(** The fatality counts of the frame are small enough for pandas to add
    them as the integers they are: their absolute values add up to less
    than 2^53, so every sum of some of them, in any order, is an integer
    that int64 holds without wrap-around and float64 without rounding.
    Within this range [sum_skipna] is the sum that pandas computes. *)
Definition exact_sums (df : list Row) : Prop :=
  sum_skipna ((λ r, Z.abs <$> fatalities_air r) <$> df) < 2 ^ 53.

(** The year lies within the outer edges of [bins]. *)
Definition in_bins (y : option Z) : Prop :=
  match y with Some y => 1908 ≤ y ≤ 2024 | None => False end.

#[global] Instance in_bins_dec y : Decision (in_bins y).
Proof. destruct y; simpl; apply _. Defined.

(** A file with a duplicated row and a misspelt month. *)
Definition with_duplicate : list RawRow :=
  [ crash 1988 "Feburary" (Some 270); crash 1977 "March" (Some 346);
    crash 1988 "Feburary" (Some 270); crash 2030 "Marchx" (Some 3);
    crash 1977 "March" None ].

(** The grouping key of the row is one of [keys]. *)
Definition keyed `{EqDecision K} (by_ : Row → option K) (keys : list K)
    (r : Row) : Prop :=
  match by_ r with Some k => k ∈ keys | None => False end.

#[global] Instance keyed_dec `{EqDecision K} (by_ : Row → option K) keys r :
  Decision (keyed by_ keys r).
Proof. unfold keyed. destruct (by_ r); apply _. Defined.

(** [top] lists the keys of the [n] largest group totals of the view, the
    largest first: distinct keys of the view, [n] of them or all if there
    are fewer, by descending total, and no key left out has a larger total
    than a key listed. *)
Definition largest_totals `{EqDecision K} (n : nat) (by_ : Row → option K)
    (df : list Row) (top : list K) : Prop :=
  NoDup top
  ∧ (∀ k, k ∈ top → Some k ∈ by_ <$> df)
  ∧ length top = min n (length (unique (omap by_ df)))
  ∧ StronglySorted (λ a b, total by_ df b ≤ total by_ df a) top
  ∧ (∀ k k', k ∈ top → Some k' ∈ by_ <$> df → k' ∉ top →
       total by_ df k' ≤ total by_ df k).
(** * Properties *)

(** ** Column names *)

Module ColumnNamesFacts.
Import ColumnNames.

Section chain.
Context (M : StringMethods).
Implicit Types (s new : list (char M)) (c old : char M).

Lemma elem_of_lstrip s c : c ∈ lstrip M s → c ∈ s.
Proof.
  induction s as [|d s IH]; simpl; [done|].
  destruct (isspace M d); [|done]. intros Hc. right. by apply IH.
Qed.

Lemma elem_of_rstrip s c : c ∈ rstrip M s → c ∈ s.
Proof.
  induction s as [|d s IH]; simpl; [done|].
  destruct (rstrip M s) as [|e t].
  - destruct (isspace M d); [by intros ?%elem_of_nil|].
    intros ->%list_elem_of_singleton. left.
  - intros Hc. apply elem_of_cons in Hc as [->|Hc]; [left|right; by apply IH].
Qed.

Lemma elem_of_strip s c : c ∈ strip M s → c ∈ s.
Proof. intros Hc. by apply elem_of_lstrip, elem_of_rstrip. Qed.

Lemma elem_of_replace old new s c :
  c ∈ replace M old new s → (c ∈ s ∧ c ≠ old) ∨ c ∈ new.
Proof.
  induction s as [|d s IH]; simpl; [by intros ?%elem_of_nil|].
  destruct (decide (d = old)) as [->|Hd].
  - rewrite elem_of_app. intros [Hc|Hc]; [by right|].
    destruct (IH Hc) as [[? ?]|?]; [left|by right]. split; [by right|done].
  - rewrite elem_of_cons. intros [->|Hc]; [left; split; [left|done]|].
    destruct (IH Hc) as [[? ?]|?]; [left|by right]. split; [by right|done].
Qed.

Lemma replace_absent old new s : old ∉ s → replace M old new s = s.
Proof.
  induction s as [|d s IH]; simpl; [done|].
  rewrite not_elem_of_cons. intros [Hd Hs].
  rewrite decide_False by done. by rewrite IH.
Qed.

Lemma lstrip_no_space s :
  (∀ c, c ∈ s → isspace M c = false) → lstrip M s = s.
Proof.
  destruct s as [|d s]; simpl; [done|]. intros Hs.
  by rewrite (Hs d) by left.
Qed.

Lemma rstrip_no_space s :
  (∀ c, c ∈ s → isspace M c = false) → rstrip M s = s.
Proof.
  induction s as [|d s IH]; simpl; [done|]. intros Hs.
  rewrite IH by (intros c Hc; apply Hs; by right).
  destruct s; [|done]. by rewrite (Hs d) by left.
Qed.

Lemma strip_no_space s :
  (∀ c, c ∈ s → isspace M c = false) → strip M s = s.
Proof.
  intros Hs. unfold strip. rewrite (lstrip_no_space _ Hs).
  by apply rstrip_no_space.
Qed.

(** Without the four special characters, and unchanged by [lower] at its
    trimmed form, a name is normalised by trimming alone. *)
Lemma normalize_strip s :
  (∀ c, c ∈ s → c ∉ special M) → lower M (strip M s) = strip M s →
  normalize M s = strip M s.
Proof.
  intros Hs Hlow. unfold normalize. rewrite Hlow.
  assert (Hno : ∀ c, c ∈ special M → c ∉ strip M s).
  { intros c Hc Hin. apply elem_of_strip in Hin. by apply (Hs c). }
  rewrite (replace_absent (space M)) by (apply Hno; left).
  rewrite (replace_absent (lparen M)) by (apply Hno; right; left).
  rewrite (replace_absent (rparen M)) by (apply Hno; do 2 right; left).
  apply replace_absent, Hno. do 3 right. left.
Qed.

Context (HM : Lawful M).

(** The characters of a normalised name: characters of the lower-cased
    trimmed name or underscores, and none of the four special ones. *)
Lemma elem_of_normalize s c :
  c ∈ normalize M s →
  (c ∈ lower M (strip M s) ∨ c = underscore M) ∧ c ∉ special M.
Proof.
  pose proof (underscore_not_special M HM) as Hu. unfold special in *.
  rewrite !not_elem_of_cons in Hu. destruct Hu as (Hu1 & Hu2 & Hu3 & Hu4 & _).
  unfold normalize. intros Hc.
  apply elem_of_replace in Hc as [[Hc H4]|Hc%list_elem_of_singleton].
  2:{ subst c. split; [by right|]. rewrite !not_elem_of_cons.
      by repeat split; try apply not_elem_of_nil. }
  apply elem_of_replace in Hc as [[Hc H3]|Hc]; [|by apply elem_of_nil in Hc].
  apply elem_of_replace in Hc as [[Hc H2]|Hc]; [|by apply elem_of_nil in Hc].
  apply elem_of_replace in Hc as [[Hc H1]|Hc%list_elem_of_singleton].
  - split; [by left|]. rewrite !not_elem_of_cons.
    by repeat split; try apply not_elem_of_nil.
  - subst c. split; [by right|]. rewrite !not_elem_of_cons.
    by repeat split; try apply not_elem_of_nil.
Qed.

(** A normalised name is unchanged by [lower], and so is each of its
    parts. *)
Lemma lower_normalize s t :
  (∀ c, c ∈ t → c ∈ normalize M s) → lower M t = t.
Proof.
  intros Ht. apply (lower_settles M HM (strip M s)).
  intros c Hc. by apply Ht, elem_of_normalize in Hc as [? _].
Qed.

(** On a normalised name the chain comes down to [strip]. *)
Lemma normalize_settled s :
  normalize M (normalize M s) = strip M (normalize M s).
Proof.
  apply normalize_strip.
  - intros c Hc. by apply elem_of_normalize in Hc as [_ ?].
  - apply (lower_normalize s). intros c. apply elem_of_strip.
Qed.

Lemma plain_whitespace_spec s :
  plain_whitespace M s = true
  ↔ ∀ c, c ∈ s → isspace M c = true → c = space M.
Proof.
  unfold plain_whitespace. induction s as [|d s IH]; simpl.
  { split; [|done]. by intros _ c ?%elem_of_nil. }
  rewrite andb_true_iff, IH. split.
  - intros [Hd Hs] c [->|Hc]%elem_of_cons Hspace; [|by apply Hs].
    rewrite Hspace in Hd. by apply bool_decide_eq_true in Hd.
  - intros Hs. split; [|intros c Hc; apply Hs; by right].
    destruct (isspace M d) eqn:Hd; [|done]. simpl.
    apply bool_decide_eq_true, Hs; [left|done].
Qed.

(** A name with plain spaces only is normalised to a name without any
    whitespace. *)
Lemma normalize_no_space s :
  plain_whitespace M s = true →
  ∀ c, c ∈ normalize M s → isspace M c = false.
Proof.
  rewrite plain_whitespace_spec. intros Hs c Hc.
  apply elem_of_normalize in Hc as [[Hc| ->] Hsp].
  - destruct (isspace M c) eqn:Hspace; [|done].
    apply (lower_no_new_space M HM) in Hc; [|done].
    apply elem_of_strip in Hc. rewrite (Hs c Hc Hspace) in Hsp.
    destruct Hsp. left.
  - apply (underscore_not_space M HM).
Qed.

End chain.

(** *** ASCII names *)

Ltac by_char c :=
  destruct c as [[] [] [] [] [] [] [] []]; vm_compute; try done; auto.

Lemma lower_char_settled c : ascii_isupper (lower_char c) = false.
Proof. by_char c. Qed.

Lemma lower_char_space c :
  ascii_isspace (lower_char c) = true → lower_char c = c.
Proof. by_char c. Qed.

(** The ASCII methods have the four properties. *)
Lemma ascii_lawful : Lawful ascii_methods.
Proof.
  split; simpl.
  - intros x y Hy. induction y as [|c y IH]; [done|]. csimpl.
    rewrite IH by (intros d Hd; apply Hy; by right). f_equal.
    destruct (Hy c) as [Hc| ->]; [left| |done].
    apply list_elem_of_fmap in Hc as (d & -> & _).
    unfold lower_char at 1. by rewrite lower_char_settled.
  - intros x c Hc Hspace.
    apply list_elem_of_fmap in Hc as (d & -> & Hd).
    by rewrite lower_char_space.
  - done.
  - unfold special. simpl. rewrite !not_elem_of_cons.
    by repeat split; try apply not_elem_of_nil.
Qed.

(** C9, as stated, fails: the name [(<tab>air)] is normalised to
    [<tab>air], which a second pass trims to [air]. *)
Lemma normalize_not_idempotent :
  normalize_ascii tab_name = String "009" "air"
  ∧ normalize_ascii (normalize_ascii tab_name) = "air"
  ∧ normalize_ascii (normalize_ascii tab_name) ≠ normalize_ascii tab_name.
Proof. by vm_compute. Qed.

(** C9 (amended): applying the normalisation twice gives the same name as
    applying it once exactly when the once-normalised name has no leading or
    trailing whitespace; this is the case for every column name whose only
    whitespace characters are plain spaces. *)
Theorem normalize_twice (M : StringMethods) (HM : Lawful M)
    (s : list (char M)) :
  (normalize M (normalize M s) = normalize M s
   ↔ strip M (normalize M s) = normalize M s)
  ∧ (plain_whitespace M s = true →
     normalize M (normalize M s) = normalize M s).
Proof.
  pose proof (normalize_settled M HM s) as Hn.
  split; [by rewrite Hn|].
  intros Hs. rewrite Hn. by apply strip_no_space, normalize_no_space.
Qed.

Lemma normalize_twice_witness :
  plain_whitespace ascii_methods (list_ascii_of_string " Fatalities (air) ")
  = true
  ∧ normalize_ascii " Fatalities (air) " = "fatalities_air"
  ∧ normalize ascii_methods
      (normalize ascii_methods (list_ascii_of_string " Fatalities (air) "))
    = normalize ascii_methods (list_ascii_of_string " Fatalities (air) ").
Proof.
  split; [reflexivity|]. split; [reflexivity|].
  apply (proj2 (normalize_twice ascii_methods ascii_lawful
                  (list_ascii_of_string " Fatalities (air) "))).
  reflexivity.
Defined.

End ColumnNamesFacts.

(** ** Loader *)

(** The thirteen keys of [month_map]. *)
Lemma month_map_absent (name : string) :
  name ∉ "Feburary" :: calendar → month_map !! name = None.
Proof.
  intros Hname. apply not_elem_of_list_to_map_1. intros Hin. apply Hname.
  revert Hin. simpl. unfold calendar. rewrite !elem_of_cons, !elem_of_nil.
  tauto.
Qed.

(** C8: [month_num] is the month string looked up in the fixed table: the
    twelve English month names give 1 to 12, the misspelling "Feburary"
    gives 2, and a name that the table lacks (such as "Marchx") or a null
    month gives null; the lookup is a total function, no input fails. *)
Theorem month_mapping :
  (∀ r, month_num (load_row r) = map_dict month_map (raw_month r))
  ∧ (∀ (i : nat) name, calendar !! i = Some name →
       map_dict month_map (Some name) = Some (Z.of_nat i + 1))
  ∧ map_dict month_map (Some "Feburary") = Some 2
  ∧ map_dict month_map (Some "Marchx") = None
  ∧ (∀ name, name ∉ "Feburary" :: calendar →
       map_dict month_map (Some name) = None)
  ∧ map_dict month_map None = None.
Proof.
  split; [done|]. split.
  { intros i name Hi.
    do 12 (destruct i as [|i]; [injection Hi as <-; by vm_compute|]).
    done. }
  split; [by vm_compute|]. split; [by vm_compute|]. split; [|done].
  intros name Hname. simpl. by apply month_map_absent.
Qed.

Lemma month_mapping_witness :
  map_dict month_map (Some "October") = Some 10
  ∧ map_dict month_map (Some "Octobre") = None.
Proof.
  destruct month_mapping as (_ & Hcal & _ & _ & Habs & _). split.
  - apply (Hcal 9%nat "October"). reflexivity.
  - apply (Habs "Octobre"). unfold calendar.
    rewrite !elem_of_cons, elem_of_nil. intros H.
    repeat (destruct H as [H|H]; [discriminate H|]). exact H.
Defined.

(** [cut] with the script's edges and labels, bin by bin. *)
Lemma cut_bins (y : Z) :
  cut bins labels (Some y) =
    if y <? 1908 then None
    else if y <=? 1920 then Some "Early 1910s"
    else if y <=? 1932 then Some "Mid 1920s"
    else if y <=? 1944 then Some "Late 1930s"
    else if y <=? 1956 then Some "Early 1940s"
    else if y <=? 1968 then Some "Mid 1950s"
    else if y <=? 1980 then Some "Late 1960s"
    else if y <=? 1992 then Some "Early 1970s"
    else if y <=? 2004 then Some "Late 1980s"
    else if y <=? 2016 then Some "Early 2000s"
    else if y <=? 2020 then Some "Mid 2010s"
    else if y <=? 2024 then Some "Early 2020s"
    else None.
Proof.
  unfold cut, bins. simpl.
  destruct (decide (Some y = Some 1908)) as [[= ->]|Hy]; [done|].
  assert (y ≠ 1908) by congruence.
  repeat (match goal with
          | |- context [?a <? ?b] => destruct (Z.ltb_spec a b)
          | |- context [?a <=? ?b] => destruct (Z.leb_spec a b)
          end; try lia; simpl); done.
Qed.

(** Settle a decidable closed statement by evaluating its decision. *)
Ltac by_decide :=
  match goal with |- ?P => apply (bool_decide_unpack P); by vm_compute end.

Ltac split_bins :=
  repeat match goal with
         | |- context [?a <? ?b] => destruct (Z.ltb_spec a b)
         | |- context [?a <=? ?b] => destruct (Z.leb_spec a b)
         end.

(** C3: [year_bin] is [cut] of the year over the twelve fixed edges; label
    [i] covers edge [i] < year <= edge [i+1], and the lowest edge 1908 also
    falls in the first label.  So 1920 is "Early 1910s", 2025 is null, and
    the inner edge 2016 has exactly one label (the one whose interval it
    closes, "Early 2000s"); years outside 1908..2024 and a null year are
    null. *)
Theorem year_binning :
  (∀ r, year_bin (load_row r) = cut bins labels (raw_year r))
  ∧ (∀ (y : Z) (i : nat) lbl lo hi,
       labels !! i = Some lbl → bins !! i = Some lo → bins !! S i = Some hi →
       cut bins labels (Some y) = Some lbl
       ↔ lo < y ≤ hi ∨ (i = 0%nat ∧ y = lo))
  ∧ cut bins labels (Some 1920) = Some "Early 1910s"
  ∧ cut bins labels (Some 2025) = None
  ∧ cut bins labels (Some 2016) = Some "Early 2000s"
  ∧ (∀ lbl, cut bins labels (Some 2016) = Some lbl → lbl = "Early 2000s")
  ∧ (∀ y, y < 1908 ∨ 2024 < y → cut bins labels (Some y) = None)
  ∧ cut bins labels None = None.
Proof.
  split; [done|]. split.
  { intros y i lbl lo hi Hlbl Hlo Hhi. rewrite cut_bins.
    do 11 (destruct i as [|i];
           [ injection Hlbl as <-; injection Hlo as <-; injection Hhi as <-;
             split_bins; (split; [intros [=]; lia | intros [?|[? ?]]; (done || lia)])
           | ]).
    done. }
  split; [done|]. split; [done|]. split; [done|].
  split; [by intros lbl [= <-]|]. split; [|done].
  intros y Hy. rewrite cut_bins. split_bins; (done || lia).
Qed.

Lemma year_binning_witness :
  (cut bins labels (Some 1969) = Some "Late 1960s" ↔
     1968 < 1969 ≤ 1980 ∨ (5%nat = 0%nat ∧ 1969 = 1968))
  ∧ cut bins labels (Some 1900) = None.
Proof.
  destruct year_binning as (_ & Hbin & _ & _ & _ & _ & Hout & _). split.
  - apply (Hbin 1969 5%nat "Late 1960s" 1968 1980); reflexivity.
  - apply (Hout 1900). left. reflexivity.
Defined.

Lemma drop_duplicates_from_subseteq (seen df : list Row) :
  drop_duplicates_from seen df ⊆ df.
Proof.
  revert seen. induction df as [|r df IH]; intros seen; simpl; [done|].
  case_decide.
  - intros x Hx. right. by apply (IH seen).
  - intros x. rewrite !elem_of_cons. intros [->|Hx]; [by left|].
    right. by apply (IH (r :: seen)).
Qed.

(** Every row of the canonical table comes from a row of the file. *)
Lemma load_data_rows (csv : list RawRow) (r : Row) :
  r ∈ load_data csv → ∃ raw, raw ∈ csv ∧ r = load_row raw.
Proof.
  intros Hr. apply drop_duplicates_from_subseteq in Hr.
  apply list_elem_of_fmap in Hr as (raw & -> & Hraw). eauto.
Qed.

(** C4: in every row of the table that [load_data] returns,
    [country_region], [operator] and [aircraft_manufacturer] are non-null:
    each holds the source value, or the literal "Unknown" where the source
    had none. *)
Theorem never_null_fields (csv : list RawRow) (r : Row) :
  r ∈ load_data csv →
  is_Some (country_region r) ∧ is_Some (operator r)
  ∧ is_Some (aircraft_manufacturer r)
  ∧ ∃ raw, raw ∈ csv
      ∧ country_region r = Some (default "Unknown" (raw_country_region raw))
      ∧ operator r = Some (default "Unknown" (raw_operator raw))
      ∧ aircraft_manufacturer r
        = Some (default "Unknown" (raw_aircraft_manufacturer raw)).
Proof.
  intros Hr. apply load_data_rows in Hr as (raw & Hraw & ->). simpl.
  unfold fillna. repeat split; eauto.
Qed.

Lemma never_null_fields_witness :
  load_row (crash 1985 "August" (Some 520))
    ∈ load_data [crash 1985 "August" (Some 520)]
  ∧ country_region (load_row (crash 1985 "August" (Some 520)))
    = Some "Unknown".
Proof.
  assert (Hin : load_row (crash 1985 "August" (Some 520))
                  ∈ load_data [crash 1985 "August" (Some 520)])
    by (vm_compute; left).
  split; [exact Hin|].
  destruct (never_null_fields _ _ Hin) as (_ & _ & _ & raw & Hraw & Hc & _).
  apply list_elem_of_singleton in Hraw. subst raw. exact Hc.
Defined.

(** ** Filters *)

Lemma filter_all `{!∀ x : A, Decision (P x)} (l : list A) :
  (∀ x, x ∈ l → P x) → filter P l = l.
Proof.
  induction l as [|x l IH]; intros Hl; [done|].
  rewrite filter_cons_True by (apply Hl; left).
  f_equal. apply IH. intros y Hy. apply Hl. by right.
Qed.

Lemma isin_spec key values r :
  isin key values r = true ↔ ∃ v, column key r = Some v ∧ v ∈ values.
Proof.
  unfold isin. destruct (column key r) as [v|].
  - rewrite bool_decide_eq_true. naive_solver.
  - naive_solver.
Qed.

Lemma keeps_satisfies selected r :
  keeps selected r = true ↔ satisfies selected r.
Proof.
  unfold keeps, satisfies. induction selected as [|[k vs] sel IH]; simpl.
  - split; [|done]. intros _ key values Hin. by apply elem_of_nil in Hin.
  - rewrite andb_true_iff, IH. split.
    + intros [Hk Hsel] key values Hin Hne.
      apply elem_of_cons in Hin as [[= -> ->]|Hin]; [|by eapply Hsel].
      apply isin_spec. by destruct vs.
    + intros H. split.
      * destruct vs as [|v vs]; [done|]. apply isin_spec.
        apply (H k (v :: vs)); [left|done].
      * intros key values Hin. apply H. by right.
Qed.

Lemma apply_filters_keeps selected df :
  apply_filters selected df = filter (λ r, keeps selected r = true) df.
Proof.
  unfold apply_filters. revert df.
  induction selected as [|[k vs] sel IH]; intros df; simpl.
  - symmetry. by apply filter_all.
  - rewrite IH. destruct vs as [|v vs].
    + apply list_filter_iff. intros r. simpl. done.
    + rewrite list_filter_filter. apply list_filter_iff. intros r.
      rewrite andb_true_iff. tauto.
Qed.

(** C7: a row is kept exactly when, for each field with a non-empty
    selection, its value is one of the selected values (all fields at once,
    any value within a field); the rows kept stay in order.  With no
    selection at all (no entry, every entry empty, or nothing picked in any
    widget) the view is the whole table. *)
Theorem filter_semantics (selected : list (Key * list Value))
    (df : list Row) :
  apply_filters selected df = filter (λ r, keeps selected r = true) df
  ∧ (∀ r, keeps selected r = true ↔ satisfies selected r)
  ∧ (∀ r, r ∈ apply_filters selected df ↔ r ∈ df ∧ satisfies selected r)
  ∧ (Forall (λ kv, kv.2 = []) selected → apply_filters selected df = df)
  ∧ (∀ multiselect, (∀ key options, multiselect key options = []) →
       apply_filters (selected_filters multiselect df) df = df)
  ∧ apply_filters [] df = df.
Proof.
  assert (Hempty : ∀ sel, Forall (λ kv : Key * list Value, kv.2 = []) sel →
                     apply_filters sel df = df).
  { intros sel Hsel. rewrite apply_filters_keeps. apply filter_all.
    intros r _. apply keeps_satisfies. intros key values Hin Hne.
    rewrite Forall_forall in Hsel. by specialize (Hsel _ Hin). }
  split; [apply apply_filters_keeps|]. split; [apply keeps_satisfies|].
  split.
  { intros r. rewrite apply_filters_keeps, list_elem_of_filter, keeps_satisfies.
    tauto. }
  split; [apply Hempty|]. split; [|done].
  intros multiselect Hnone. apply Hempty, Forall_forall.
  intros [key values] Hin. unfold selected_filters in Hin.
  apply list_elem_of_omap in Hin as ([key' options] & _ & Hsome).
  destruct options; [done|]. injection Hsome as <- <-. apply Hnone.
Qed.

Lemma filter_semantics_witness :
  apply_filters [(KYear, []); (KMonth, [])]
    (load_data [crash 1985 "August" (Some 520)])
  = load_data [crash 1985 "August" (Some 520)].
Proof.
  destruct (filter_semantics [(KYear, []); (KMonth, [])]
              (load_data [crash 1985 "August" (Some 520)]))
    as (_ & _ & _ & Hempty & _).
  apply Hempty. repeat constructor.
Defined.

(** ** Group-by and top-n *)

Section unique.
Context `{EqDecision A}.
Implicit Types l : list A.

Lemma elem_of_unique l x : x ∈ unique l ↔ x ∈ l.
Proof.
  induction l as [|y l IH]; simpl; [done|].
  rewrite !elem_of_cons, list_elem_of_filter, IH.
  destruct (decide (x = y)); naive_solver.
Qed.

Lemma NoDup_unique l : NoDup (unique l).
Proof.
  induction l as [|y l IH]; simpl; constructor.
  - rewrite list_elem_of_filter. naive_solver.
  - by apply NoDup_filter.
Qed.
End unique.

Section sort_desc.
Context {K : Type}.
Implicit Types l : list (K * Z).

Lemma insert_desc_Permutation x l : insert_desc x l ≡ₚ x :: l.
Proof.
  induction l as [|y l IH]; simpl; [done|].
  destruct (x.2 <? y.2); [|done]. by rewrite IH, Permutation_swap.
Qed.

Lemma sort_desc_Permutation l : sort_desc l ≡ₚ l.
Proof.
  induction l as [|x l IH]; simpl; [done|].
  by rewrite insert_desc_Permutation, IH.
Qed.

Lemma insert_desc_sorted x l :
  StronglySorted (λ a b, b.2 ≤ a.2) l →
  StronglySorted (λ a b, b.2 ≤ a.2) (insert_desc x l).
Proof.
  induction 1 as [|y l Hl IH Hy]; simpl.
  - repeat constructor.
  - destruct (Z.ltb_spec x.2 y.2).
    + constructor; [done|]. rewrite insert_desc_Permutation.
      constructor; [lia|done].
    + constructor; [by constructor|]. constructor; [done|].
      eapply Forall_impl; [exact Hy|]. simpl. intros; lia.
Qed.

Lemma sort_desc_sorted l : StronglySorted (λ a b, b.2 ≤ a.2) (sort_desc l).
Proof.
  induction l as [|x l IH]; simpl; [constructor|].
  by apply insert_desc_sorted.
Qed.
End sort_desc.

Lemma StronglySorted_take {A} (R : relation A) n (l : list A) :
  StronglySorted R l → StronglySorted R (take n l).
Proof.
  intros Hl. rewrite <-(take_drop n l) in Hl.
  by apply StronglySorted_app_1_l in Hl.
Qed.

(** What [nlargest] returns on a Series of totals [t] over distinct keys:
    [min n (length keys)] of the keys, each with its total, by descending
    total, and no key left out has a larger total than a key returned. *)
Lemma nlargest_totals {K} (t : K → Z) (n : nat) (keys : list K) :
  NoDup keys →
  let top := (nlargest n ((λ k, (k, Some (t k))) <$> keys)).*1 in
  nlargest n ((λ k, (k, Some (t k))) <$> keys) = (λ k, (k, Some (t k))) <$> top
  ∧ NoDup top
  ∧ top ⊆ keys
  ∧ length top = min n (length keys)
  ∧ StronglySorted (λ a b, t b ≤ t a) top
  ∧ (∀ k k', k ∈ top → k' ∈ keys → k' ∉ top → t k' ≤ t k).
Proof.
  intros Hkeys.
  set (sorted := sort_desc ((λ k, (k, t k)) <$> keys)).
  assert (Hperm : sorted ≡ₚ (λ k, (k, t k)) <$> keys)
    by apply sort_desc_Permutation.
  assert (Hsorted : StronglySorted (λ a b : K * Z, b.2 ≤ a.2) sorted)
    by apply sort_desc_sorted.
  assert (Htot : Forall (λ p, p.2 = t p.1) sorted).
  { rewrite Hperm. apply Forall_fmap, Forall_forall. done. }
  assert (Hfst : sorted.*1 ≡ₚ keys).
  { rewrite Hperm, <-list_fmap_compose. by rewrite list_fmap_id. }
  assert (Hres : nlargest n ((λ k, (k, Some (t k))) <$> keys)
                 = (λ p, (p.1, Some p.2)) <$> take n sorted).
  { unfold nlargest. rewrite fmap_take. f_equal.
    assert (omap (λ p : K * option Z, pair p.1 <$> p.2)
              ((λ k, (k, Some (t k))) <$> keys) = (λ k, (k, t k)) <$> keys)
      as -> by (clear; induction keys; simpl; by f_equal).
    assert (filter (λ p : K * option Z, p.2 = None)
              ((λ k, (k, Some (t k))) <$> keys) = [])
      as -> by (clear; induction keys; simpl; done).
    by rewrite app_nil_r. }
  assert (Hid : ((λ p : K * Z, (p.1, Some p.2)) <$> take n sorted).*1
                = (take n sorted).*1)
    by (by rewrite <-list_fmap_compose).
  intros top. unfold top. rewrite Hres, Hid. clear Hid top.
  assert (Htake : take n sorted ++ drop n sorted = sorted)
    by apply take_drop.
  split.
  { rewrite <-list_fmap_compose. apply list_fmap_ext. intros i p Hp. simpl.
    apply list_elem_of_lookup_2, subseteq_take in Hp.
    rewrite Forall_forall in Htot. by rewrite (Htot p Hp). }
  split.
  { rewrite fmap_take. eapply sublist_NoDup; [|apply sublist_take].
    by rewrite Hfst. }
  split.
  { intros k Hk. rewrite <-Hfst, <-Htake, fmap_app. apply elem_of_app. by left. }
  split.
  { rewrite length_fmap, length_take, Hperm, length_fmap. done. }
  split.
  { apply (StronglySorted_fmap _ (λ a b : K * Z, t b.1 ≤ t a.1)
             (λ a b, t b ≤ t a)); [done|].
    apply StronglySorted_take.
    assert (Himp : ∀ l : list (K * Z), Forall (λ p, p.2 = t p.1) l →
              StronglySorted (λ a b : K * Z, b.2 ≤ a.2) l →
              StronglySorted (λ a b : K * Z, t b.1 ≤ t a.1) l).
    { clear. intros l Ht. induction 1 as [|p l Hl IH Hp]; constructor.
      - apply IH. by inv Ht.
      - inv Ht. rewrite Forall_forall in *. intros q Hq.
        specialize (Hp q Hq). rewrite <-(H2 q Hq). lia. }
    by apply Himp. }
  intros k k' Hk Hk' Hnot.
  apply list_elem_of_fmap in Hk as (p & -> & Hp).
  assert (Hq : k' ∈ (drop n sorted).*1).
  { rewrite <-Hfst, <-Htake, fmap_app, elem_of_app in Hk'.
    destruct Hk' as [Hk'|Hk']; [|done]. by destruct Hnot. }
  apply list_elem_of_fmap in Hq as (q & -> & Hq).
  rewrite <-Htake in Hsorted.
  pose proof (StronglySorted_app_1_elem_of _ _ _ _ _ Hsorted Hp Hq) as Hle.
  rewrite Forall_forall in Htot.
  rewrite <-(Htot p), <-(Htot q); [done|..]; rewrite <-Htake, elem_of_app; auto.
Qed.

Section groupby.
Context `{EqDecision K} (by_ : Row → option K).
Implicit Types df : list Row.

Lemma elem_of_omap_by df k : k ∈ omap by_ df ↔ Some k ∈ by_ <$> df.
Proof.
  rewrite list_elem_of_omap, list_elem_of_fmap. naive_solver.
Qed.

(** The keys of the groups: the distinct non-null keys of the rows. *)
Lemma groupby_keys (sort_keys : list K → list K) df :
  (∀ l, sort_keys l ≡ₚ l) →
  NoDup (sort_keys (unique (omap by_ df)))
  ∧ ∀ k, k ∈ sort_keys (unique (omap by_ df)) ↔ Some k ∈ by_ <$> df.
Proof.
  intros Hsort. split.
  - rewrite Hsort. apply NoDup_unique.
  - intros k. by rewrite Hsort, elem_of_unique, elem_of_omap_by.
Qed.

Lemma omap_nonnull df :
  omap by_ (filter (λ r, is_Some (by_ r)) df) = omap by_ df.
Proof.
  induction df as [|r df IH]; [done|]. rewrite filter_cons.
  destruct (decide (is_Some (by_ r))) as [[k Hk]|Hr]; csimpl.
  - by rewrite Hk, IH.
  - rewrite IH. destruct (by_ r) eqn:Hk; [|done]. destruct Hr. eauto.
Qed.

Lemma group_nonnull df k :
  group by_ k (filter (λ r, is_Some (by_ r)) df) = group by_ k df.
Proof.
  unfold group. apply list_filter_filter_l. intros r ->. eauto.
Qed.

Lemma total_nonnull df k :
  total by_ (filter (λ r, is_Some (by_ r)) df) k = total by_ df k.
Proof. unfold total. by rewrite group_nonnull. Qed.

Lemma fmap_nonnull df k :
  Some k ∈ by_ <$> filter (λ r, is_Some (by_ r)) df ↔ Some k ∈ by_ <$> df.
Proof. by rewrite <-!elem_of_omap_by, omap_nonnull. Qed.

(** Rows with a null key are in no group. *)
Lemma groupby_sum_nonnull sort_keys df :
  groupby_sum sort_keys by_ (filter (λ r, is_Some (by_ r)) df)
  = groupby_sum sort_keys by_ df.
Proof.
  unfold groupby_sum. rewrite omap_nonnull. apply list_fmap_ext.
  intros _ k _. by rewrite total_nonnull.
Qed.

(** Looking a key up in a Series of totals. *)
Lemma find_total (t : K → Z) (keys : list K) k :
  list_find (λ p : K * option Z, p.1 = k) ((λ k, (k, Some (t k))) <$> keys)
    ≫= (λ ip, ip.2.2)
  = if decide (k ∈ keys) then Some (t k) else None.
Proof.
  induction keys as [|k' keys IH]; [done|]. csimpl.
  destruct (decide (k' = k)) as [->|Hne]; simpl.
  - by rewrite decide_True by left.
  - rewrite <-(decide_ext (k ∈ keys) (k ∈ k' :: keys))
      by (rewrite elem_of_cons; naive_solver).
    rewrite <-IH. by destruct (list_find _ _) as [[i p]|].
Qed.

(** [reindex] then [dropna]: the new keys that have a group, in the new
    order. *)
Lemma dropna_reindex (t : K → Z) (keys index : list K) :
  dropna (reindex index ((λ k, (k, Some (t k))) <$> keys))
  = (λ k, (k, Some (t k))) <$> filter (λ k, k ∈ keys) index.
Proof.
  unfold dropna, reindex.
  induction index as [|k index IH]; [done|]. csimpl.
  rewrite find_total, (filter_cons (λ k, k ∈ keys)).
  destruct (decide (k ∈ keys)).
  - rewrite filter_cons_True by (simpl; eauto). csimpl. by rewrite IH.
  - by rewrite filter_cons_False by (simpl; by intros [? ?]).
Qed.
End groupby.

Lemma groupby_categorical_sum_nonnull observed categories
    (by_ : Row → option string) (df : list Row) :
  groupby_categorical_sum observed categories by_
    (filter (λ r, is_Some (by_ r)) df)
  = groupby_categorical_sum observed categories by_ df.
Proof.
  unfold groupby_categorical_sum. destruct observed.
  - rewrite (list_filter_iff _ (λ k : string, Some k ∈ by_ <$> df))
      by (intros k; apply fmap_nonnull).
    apply list_fmap_ext. intros _ k _. by rewrite total_nonnull.
  - apply list_fmap_ext. intros _ k _. by rewrite total_nonnull.
Qed.

Lemma sort_Z_Permutation l : sort_Z l ≡ₚ l.
Proof. apply merge_sort_Permutation. Qed.

Lemma sort_string_Permutation l : sort_string l ≡ₚ l.
Proof. apply merge_sort_Permutation. Qed.

(** C5: the top-years aggregate sums [fatalities_air] per year and returns
    the years with the largest sums, by descending sum: five of them (all of
    them if the view has fewer than five years), each a year of the view
    with the sum of its rows, and no year left out has a larger sum than a
    year returned.  On the per-year sums 1985: 520, 1977: 346, 2001: 2996,
    1988: 270, 1996: 349, 1972: 1 the result is 2001, 1985, 1996, 1977,
    1988 with their sums, in that order. *)
Theorem top_years (df : list Row) :
  let top := (crashes_per_year df).*1 in
  crashes_per_year df = (λ y, (y, Some (total year df y))) <$> top
  ∧ NoDup top
  ∧ (∀ y, y ∈ top → Some y ∈ year <$> df)
  ∧ length top = min 5 (length (unique (omap year df)))
  ∧ StronglySorted (λ a b, total year df b ≤ total year df a) top
  ∧ (∀ y y', y ∈ top → Some y' ∈ year <$> df → y' ∉ top →
       total year df y' ≤ total year df y)
  ∧ crashes_per_year (load_data six_years)
    = [ (2001, Some 2996); (1985, Some 520); (1996, Some 349);
        (1977, Some 346); (1988, Some 270) ].
Proof.
  destruct (groupby_keys year sort_Z df sort_Z_Permutation) as [Hnd Hkeys].
  destruct (nlargest_totals (total year df) 5 _ Hnd)
    as (Hres & Htop & Hsub & Hlen & Hsorted & Hmax).
  intros top. split; [exact Hres|]. split; [exact Htop|]. split.
  { intros y Hy. by apply Hkeys, Hsub. }
  split.
  { unfold top, crashes_per_year, groupby_sum. rewrite Hlen.
    by rewrite sort_Z_Permutation. }
  split; [exact Hsorted|]. split; [|by vm_compute].
  intros y y' Hy Hy'. apply Hmax; [done|]. by apply Hkeys.
Qed.

Lemma top_years_witness :
  total year (load_data six_years) 1972 ≤ total year (load_data six_years) 1988.
Proof.
  destruct (top_years (load_data six_years))
    as (_ & _ & _ & _ & _ & Hmax & _).
  apply Hmax; by_decide.
Defined.

(** C6: the monthly aggregate sums [fatalities_air] per [month_name] and
    lists the months in calendar order, January to December, leaving out
    every month that has no row in the view (no zero and no null entry
    stands in for it).  With rows in October and March only, the result is
    March, then October. *)
Theorem monthly_totals (df : list Row) :
  monthly_fatalities df
  = (λ m, (m, Some (total month_name df m)))
      <$> filter (λ m, Some m ∈ month_name <$> df) calendar
  ∧ monthly_fatalities (load_data two_months)
    = [ ("March", Some 346); ("October", Some 12) ].
Proof.
  split; [|by vm_compute].
  unfold monthly_fatalities, groupby_sum. rewrite dropna_reindex.
  f_equal. apply list_filter_iff. intros m.
  apply (groupby_keys month_name sort_string df sort_string_Permutation).
Qed.

(** C10: a row whose grouping key is null is in no group: each of the
    top-years, monthly and decade aggregates is the same on the view as on
    the view without its rows of null [year], [month_name] or [year_bin], so
    the [fatalities_air] of those rows is in none of the totals. *)
Theorem null_keys_excluded (df : list Row) :
  crashes_per_year df
    = crashes_per_year (filter (λ r, is_Some (year r)) df)
  ∧ monthly_fatalities df
    = monthly_fatalities (filter (λ r, is_Some (month_name r)) df)
  ∧ (∀ observed,
       decade_counts observed df
       = decade_counts observed (filter (λ r, is_Some (year_bin r)) df))
  ∧ (∀ y, total year df y
          = total year (filter (λ r, is_Some (year r)) df) y)
  ∧ (∀ m, total month_name df m
          = total month_name (filter (λ r, is_Some (month_name r)) df) m)
  ∧ (∀ b, total year_bin df b
          = total year_bin (filter (λ r, is_Some (year_bin r)) df) b).
Proof.
  split; [unfold crashes_per_year; by rewrite groupby_sum_nonnull|].
  split; [unfold monthly_fatalities; by rewrite groupby_sum_nonnull|].
  split.
  { intros observed. unfold decade_counts.
    by rewrite groupby_categorical_sum_nonnull. }
  split; [|split]; intros k; by rewrite total_nonnull.
Qed.

(** ** The decade chart *)

Lemma dropna_totals {K} (t : K → Z) (keys : list K) :
  dropna ((λ k, (k, Some (t k))) <$> keys) = (λ k, (k, Some (t k))) <$> keys.
Proof.
  unfold dropna. apply filter_all. intros p Hp.
  apply list_elem_of_fmap in Hp as (k & -> & _). simpl. eauto.
Qed.

(** A bin without a row has the empty sum, 0, as its total: the total is
    never null, so [dropna] has nothing to drop. *)
Lemma total_no_rows `{EqDecision K} (by_ : Row → option K) df k :
  Some k ∉ by_ <$> df → total by_ df k = 0.
Proof.
  intros Hk. unfold total, group.
  assert (filter (λ r, by_ r = Some k) df = []) as ->; [|done].
  induction df as [|r df IH]; [done|].
  rewrite fmap_cons, not_elem_of_cons in Hk. destruct Hk as [Hr Hk].
  rewrite filter_cons_False by congruence. by apply IH.
Qed.

(** With [observed=False] (pandas before 3.0) every label is listed, a bin
    without a row with total 0: [dropna] finds no null to drop. *)
Lemma decade_counts_unobserved (df : list Row) :
  decade_counts false df
  = (λ k, (k, Some (total year_bin df k))) <$> labels.
Proof. unfold decade_counts, groupby_categorical_sum. apply dropna_totals. Qed.

Lemma decade_counts_unobserved_empty : decade_counts false [] = all_bins_zero.
Proof. by vm_compute. Qed.


(** ** The empty view *)

(** The four aggregates that group by a plain column are empty on a view
    without rows. *)
Lemma empty_view_plain_aggregates :
  crashes_per_year [] = [] ∧ top_countries [] = []
  ∧ monthly_fatalities [] = [] ∧ top_manufacturers [] = [].
Proof. by vm_compute. Qed.




(** * Further properties of the pipeline *)

(** ** Duplicate elimination (line 51) *)

Lemma drop_duplicates_from_spec (seen df : list Row) :
  NoDup (drop_duplicates_from seen df)
  ∧ ∀ r, r ∈ drop_duplicates_from seen df ↔ r ∈ df ∧ r ∉ seen.
Proof.
  revert seen. induction df as [|x df IH]; intros seen; simpl.
  { split; [constructor|]. intros r. rewrite elem_of_nil. tauto. }
  case_decide as Hx.
  - destruct (IH seen) as [Hnd Hin]. split; [done|].
    intros r. rewrite Hin, elem_of_cons. naive_solver.
  - destruct (IH (x :: seen)) as [Hnd Hin]. split.
    + constructor; [|done]. rewrite Hin, elem_of_cons. naive_solver.
    + intros r. rewrite !elem_of_cons, Hin, elem_of_cons.
      destruct (decide (r = x)); naive_solver.
Qed.

Lemma drop_duplicates_from_NoDup (seen df : list Row) :
  NoDup df → (∀ r, r ∈ df → r ∉ seen) → drop_duplicates_from seen df = df.
Proof.
  revert seen. induction df as [|x df IH]; intros seen Hnd Hseen; [done|].
  simpl. apply NoDup_cons in Hnd as [Hx Hnd].
  rewrite decide_False by (apply Hseen; left). f_equal.
  apply IH; [done|]. intros r Hr. rewrite elem_of_cons.
  intros [->|Hin]; [done|]. apply (Hseen r); [by right|done].
Qed.

Lemma drop_duplicates_from_sublist (seen df : list Row) :
  drop_duplicates_from seen df `sublist_of` df.
Proof.
  revert seen. induction df as [|x df IH]; intros seen; simpl; [done|].
  case_decide; [by apply sublist_cons|by apply sublist_skip].
Qed.

(** X1: the canonical table has no two equal rows, and its rows are exactly
    the cleaned rows of the file: nothing but duplicates is dropped. *)
Theorem load_data_distinct_rows (csv : list RawRow) :
  NoDup (load_data csv)
  ∧ ∀ r, r ∈ load_data csv ↔ ∃ raw, raw ∈ csv ∧ r = load_row raw.
Proof.
  destruct (drop_duplicates_from_spec [] (load_row <$> csv)) as [Hnd Hin].
  split; [exact Hnd|]. intros r. unfold load_data, drop_duplicates.
  rewrite Hin, list_elem_of_fmap, elem_of_nil. naive_solver.
Qed.

Lemma load_data_distinct_rows_witness :
  load_row (crash 1977 "March" None) ∈ load_data with_duplicate
  ∧ length (load_data with_duplicate) = 4%nat.
Proof.
  split; [|reflexivity].
  apply (proj2 (load_data_distinct_rows with_duplicate)).
  exists (crash 1977 "March" None). split; [|reflexivity].
  do 4 apply list_elem_of_further. apply list_elem_of_here.
Defined.

(** A row at the end of the frame is kept exactly when no row before it,
    nor a row seen earlier, is equal to it. *)
Lemma drop_duplicates_from_snoc (seen df : list Row) (r : Row) :
  drop_duplicates_from seen (df ++ [r])
  = drop_duplicates_from seen df
    ++ (if decide (r ∈ seen ∨ r ∈ df) then [] else [r]).
Proof.
  revert seen. induction df as [|x df IH]; intros seen; simpl.
  { rewrite (decide_ext (r ∈ seen) (r ∈ seen ∨ r ∈ []))
      by (rewrite elem_of_nil; tauto).
    by destruct (decide _). }
  destruct (decide (x ∈ seen)) as [Hx|Hx].
  - rewrite IH. f_equal. apply decide_ext. rewrite elem_of_cons.
    split; [tauto|]. intros [?|[->|?]]; tauto.
  - rewrite IH. simpl. do 2 f_equal. apply decide_ext.
    rewrite !elem_of_cons. tauto.
Qed.

(** X2: [drop_duplicates] keeps of equal rows the first one and leaves the
    rows in their order: going through the frame, a row stays exactly when
    no earlier row is equal to it.  So the result is a sub-list of the
    frame, a frame without duplicates is unchanged, and applying
    [drop_duplicates] a second time changes nothing. *)
Theorem drop_duplicates_stable (df : list Row) :
  drop_duplicates [] = []
  ∧ (∀ df' r, drop_duplicates (df' ++ [r])
              = drop_duplicates df' ++ (if decide (r ∈ df') then [] else [r]))
  ∧ drop_duplicates df `sublist_of` df
  ∧ (NoDup df → drop_duplicates df = df)
  ∧ drop_duplicates (drop_duplicates df) = drop_duplicates df.
Proof.
  assert (Hid : ∀ l, NoDup l → drop_duplicates l = l).
  { intros l Hl. apply drop_duplicates_from_NoDup; [done|].
    intros r _. apply not_elem_of_nil. }
  split; [done|]. split.
  { intros df' r. unfold drop_duplicates. rewrite drop_duplicates_from_snoc.
    f_equal. apply decide_ext. rewrite elem_of_nil. tauto. }
  split; [apply drop_duplicates_from_sublist|]. split; [apply Hid|].
  apply Hid, drop_duplicates_from_spec.
Qed.

Lemma drop_duplicates_stable_witness :
  drop_duplicates (load_data with_duplicate) = load_data with_duplicate.
Proof.
  apply (proj1 (proj2 (proj2 (proj2
           (drop_duplicates_stable (load_data with_duplicate)))))).
  by_decide.
Defined.

(** ** Month derivation (lines 27-39) *)

(** The number of each key of [month_map] names that month in [calendar]. *)
Lemma month_map_calendar (name : string) (m : Z) :
  month_map !! name = Some m →
  1 ≤ m ≤ 12
  ∧ calendar !! Z.to_nat (m - 1)
    = Some (if decide (name = "Feburary") then "February" else name).
Proof.
  destruct (decide (name ∈ "Feburary" :: calendar)) as [Hin|Hout].
  - unfold calendar in Hin. rewrite !elem_of_cons, elem_of_nil in Hin.
    repeat (destruct Hin as [->|Hin];
            [vm_compute; intros [= <-]; by vm_compute|]).
    done.
  - by rewrite month_map_absent.
Qed.

(** X3: for a year that pandas can hold as a timestamp (1678 to 2261), the
    month name survives the trip through [month_num] and [month_date]:
    [month_name] is the month given in the file, and the misspelt
    "Feburary" comes back as "February". *)
Theorem month_name_round_trip (r : RawRow) (y : Z) (name : string) :
  raw_year r = Some y → 1678 ≤ y ≤ 2261 →
  raw_month r = Some name → name ∈ "Feburary" :: calendar →
  month_name (load_row r)
  = Some (if decide (name = "Feburary") then "February" else name).
Proof.
  intros Hy Hrange Hm Hname. simpl. rewrite Hy, Hm. simpl.
  destruct (month_map !! name) as [m|] eqn:Hmap.
  - destruct (month_map_calendar _ _ Hmap) as [Hm12 Hcal]. simpl.
    unfold in_timestamp_bounds.
    destruct (Z.leb_spec 1 m); [|lia]. destruct (Z.leb_spec m 12); [|lia].
    destruct (Z.ltb_spec 1677 y); [|lia]. destruct (Z.ltb_spec y 2262); [|lia].
    simpl. exact Hcal.
  - pose proof (not_elem_of_list_to_map_2 _ _ Hmap) as Hout.
    exfalso. apply Hout. revert Hname. unfold calendar. simpl.
    rewrite !elem_of_cons, !elem_of_nil. tauto.
Qed.

Lemma month_name_round_trip_witness :
  month_name (load_row (crash 1988 "Feburary" (Some 270))) = Some "February".
Proof.
  apply (month_name_round_trip (crash 1988 "Feburary" (Some 270))
           1988 "Feburary"); [reflexivity|lia|reflexivity|left].
Defined.



(** ** Widgets and filters (lines 63-79) *)

(** X5: the options of a widget are the distinct non-null values of its
    column: no option is offered twice, every option occurs in the table,
    and every value that occurs is offered. *)
Theorem filters_options (df : list Row) (key : Key) (options : list Value) :
  (key, options) ∈ filters df →
  NoDup options ∧ ∀ v, v ∈ options ↔ Some v ∈ column key <$> df.
Proof.
  unfold filters. intros Hin.
  apply list_elem_of_fmap in Hin as (key' & [= <- ->] & _). split.
  - apply NoDup_unique.
  - intros v. by rewrite elem_of_unique, elem_of_omap_by.
Qed.

Lemma filters_options_witness :
  Some (VNum 1988) ∈ column KYear <$> load_data with_duplicate.
Proof.
  assert (Hin : (KYear, [VNum 1988; VNum 1977; VNum 2030])
                  ∈ filters (load_data with_duplicate)) by by_decide.
  apply (proj2 (filters_options _ _ _ Hin)). by_decide.
Defined.

(** X6: a widget is shown for exactly the keys whose column has a non-null
    cell, in the order year, quarter, month; a table without [quarter]
    values gets no quarter widget and no quarter filter. *)
Theorem selected_filters_keys (multiselect : Key → list Value → list Value)
    (df : list Row) :
  (selected_filters multiselect df).*1
  = filter (λ key, Exists (λ r, is_Some (column key r)) df)
      [KYear; KQuarter; KMonth].
Proof.
  assert (Hnil : ∀ key, unique (omap (column key) df) = []
                        ↔ ¬ Exists (λ r, is_Some (column key r)) df).
  { intros key. rewrite Exists_exists. split.
    - intros Hnil (r & Hr & [v Hv]).
      assert (Hin : v ∈ unique (omap (column key) df)).
      { rewrite elem_of_unique, list_elem_of_omap. eauto. }
      rewrite Hnil in Hin. by apply elem_of_nil in Hin.
    - intros Hno. destruct (unique _) as [|v l] eqn:Hu; [done|].
      destruct Hno.
      assert (Hin : v ∈ unique (omap (column key) df)) by (rewrite Hu; left).
      rewrite elem_of_unique, list_elem_of_omap in Hin.
      destruct Hin as (r & Hr & Hv). eauto. }
  unfold selected_filters, filters. csimpl.
  rewrite !filter_cons, filter_nil.
  repeat match goal with
         | |- context [unique (omap (column ?k) df)] =>
             let Hu := fresh "Hu" in
             destruct (unique (omap (column k) df)) eqn:Hu;
             [ apply Hnil in Hu; rewrite (decide_False _ _ Hu)
             | rewrite decide_True
                 by (destruct (decide (Exists (λ r, is_Some (column k r)) df))
                       as [|Hn]; [done|apply Hnil in Hn; congruence]) ]
         end; done.
Qed.

(** X7: picking, in one widget, at least one of the values it offers never
    gives an empty view. *)
Theorem offered_selection_nonempty (df : list Row) (key : Key)
    (options selected_values : list Value) (v : Value) :
  (key, options) ∈ filters df → v ∈ options → v ∈ selected_values →
  apply_filters [(key, selected_values)] df ≠ [].
Proof.
  intros Hkey Hv Hsel.
  unfold filters in Hkey.
  apply list_elem_of_fmap in Hkey as (key' & [= <- ->] & _).
  rewrite elem_of_unique, list_elem_of_omap in Hv.
  destruct Hv as (r & Hr & Hcol).
  assert (Hin : r ∈ apply_filters [(key, selected_values)] df).
  { rewrite apply_filters_keeps. apply list_elem_of_filter. split; [|done].
    simpl. rewrite andb_true_r.
    destruct selected_values as [|v' vs]; [done|].
    apply isin_spec. eauto. }
  intros Hnil. rewrite Hnil in Hin. by apply elem_of_nil in Hin.
Qed.

Lemma offered_selection_nonempty_witness :
  apply_filters [(KMonth, [VStr "Marchx"; VStr "April"])]
    (load_data with_duplicate) ≠ [].
Proof.
  apply (offered_selection_nonempty _ KMonth
           [VStr "Feburary"; VStr "March"; VStr "Marchx"] _ (VStr "Marchx"));
    by_decide.
Defined.

Lemma keeps_app s1 s2 r : keeps (s1 ++ s2) r = keeps s1 r && keeps s2 r.
Proof. unfold keeps. apply forallb_app. Qed.

(** X8: filters compose and commute: filtering by two groups of selections
    at once is filtering by one and then by the other, in either order, the
    order of the entries does not matter, and filtering a view again by the
    same selections changes nothing. *)
Theorem apply_filters_compose (s1 s2 : list (Key * list Value))
    (df : list Row) :
  apply_filters (s1 ++ s2) df = apply_filters s2 (apply_filters s1 df)
  ∧ apply_filters (s1 ++ s2) df = apply_filters s1 (apply_filters s2 df)
  ∧ (s1 ≡ₚ s2 → apply_filters s1 df = apply_filters s2 df)
  ∧ apply_filters s1 (apply_filters s1 df) = apply_filters s1 df.
Proof.
  rewrite !apply_filters_keeps. split; [|split; [|split]].
  - rewrite list_filter_filter. apply list_filter_iff. intros r.
    rewrite keeps_app, andb_true_iff. tauto.
  - rewrite list_filter_filter. apply list_filter_iff. intros r.
    rewrite keeps_app, andb_true_iff. tauto.
  - intros Hperm. apply list_filter_iff. intros r.
    rewrite !keeps_satisfies. unfold satisfies.
    by setoid_rewrite Hperm.
  - rewrite list_filter_filter. apply list_filter_iff. tauto.
Qed.

Lemma apply_filters_compose_witness :
  apply_filters [(KYear, [VNum 1977]); (KMonth, [VStr "March"])]
    (load_data with_duplicate)
  = apply_filters [(KMonth, [VStr "March"]); (KYear, [VNum 1977])]
      (load_data with_duplicate).
Proof.
  apply (proj1 (proj2 (proj2
           (apply_filters_compose
              [(KYear, [VNum 1977]); (KMonth, [VStr "March"])]
              [(KMonth, [VStr "March"]); (KYear, [VNum 1977])]
              (load_data with_duplicate))))).
  apply Permutation_swap.
Defined.

(** X9: a view holds rows of the table only, in the table's order and each
    at most once: a view of the canonical table has no duplicate rows and
    no more rows than the table.  Adding values to a non-empty selection of
    a key never loses a row; an empty selection of a key keeps every row
    (so the first value picked can only remove rows). *)
Theorem view_of_table (csv : list RawRow) (selected : list (Key * list Value)) :
  apply_filters selected (load_data csv) `sublist_of` load_data csv
  ∧ NoDup (apply_filters selected (load_data csv))
  ∧ (no_of_fatalities (apply_filters selected (load_data csv))
     ≤ no_of_fatalities (load_data csv))%nat
  ∧ (∀ key vs vs' r, vs ≠ [] → vs ⊆ vs' →
       r ∈ apply_filters [(key, vs)] (load_data csv) →
       r ∈ apply_filters [(key, vs')] (load_data csv))
  ∧ (∀ key vs, apply_filters [(key, vs)] (load_data csv)
               `sublist_of` apply_filters [(key, [])] (load_data csv))
  ∧ (∀ key, apply_filters [(key, [])] (load_data csv) = load_data csv).
Proof.
  assert (Hsub : apply_filters selected (load_data csv)
                   `sublist_of` load_data csv).
  { rewrite apply_filters_keeps. apply sublist_filter. }
  split; [exact Hsub|]. split.
  { eapply sublist_NoDup; [|exact Hsub]. apply drop_duplicates_from_spec. }
  split; [by apply sublist_length|]. split.
  { intros key vs vs' r Hne Hvs. rewrite !apply_filters_keeps.
    rewrite !list_elem_of_filter. intros [Hk Hr]. split; [|done].
    revert Hk. simpl. rewrite !andb_true_r.
    destruct vs as [|v vs]; [done|]. intros (w & Hcol & Hw)%isin_spec.
    assert (Hw' : w ∈ vs') by by apply Hvs.
    destruct vs' as [|v' vs']; [by apply elem_of_nil in Hw'|].
    apply isin_spec. eauto. }
  split; [|done].
  intros key vs. change (apply_filters [(key, [])] (load_data csv))
    with (load_data csv).
  rewrite apply_filters_keeps. apply sublist_filter.
Qed.

Lemma view_of_table_witness :
  load_row (crash 1977 "March" (Some 346))
    ∈ apply_filters [(KYear, [VNum 1977; VNum 1988])]
        (load_data with_duplicate).
Proof.
  destruct (view_of_table with_duplicate [])
    as (_ & _ & _ & Hmore & _).
  apply (Hmore KYear [VNum 1977] [VNum 1977; VNum 1988]).
  - discriminate.
  - intros v Hv. apply list_elem_of_singleton in Hv as ->. left.
  - by_decide.
Defined.

(** ** Totals (lines 88, 99-170) *)

Lemma sum_skipna_Permutation (l l' : list (option Z)) :
  l ≡ₚ l' → sum_skipna l = sum_skipna l'.
Proof. induction 1; simpl in *; (done || lia). Qed.

Lemma sum_skipna_cons (x : option Z) (l : list (option Z)) :
  sum_skipna (x :: l) = default 0 x + sum_skipna l.
Proof. done. Qed.

Lemma sum_skipna_app (l l' : list (option Z)) :
  sum_skipna (l ++ l') = sum_skipna l + sum_skipna l'.
Proof. induction l as [|x l IH]; simpl in *; lia. Qed.

Section totals.
Context `{EqDecision K} (by_ : Row → option K).
Implicit Types (df : list Row) (keys : list K).

Lemma total_cons r df k :
  total by_ (r :: df) k
  = (if decide (by_ r = Some k) then default 0 (fatalities_air r) else 0)
    + total by_ df k.
Proof.
  unfold total, group. rewrite filter_cons.
  destruct (decide (by_ r = Some k)); [rewrite fmap_cons; simpl|]; lia.
Qed.

Lemma keyed_nil r : ¬ keyed by_ [] r.
Proof. unfold keyed. destruct (by_ r); [apply not_elem_of_nil|tauto]. Qed.

Lemma keyed_cons k keys r :
  keyed by_ (k :: keys) r ↔ by_ r = Some k ∨ keyed by_ keys r.
Proof.
  unfold keyed. destruct (by_ r) as [k0|]; [|naive_solver].
  rewrite elem_of_cons. naive_solver.
Qed.

Lemma keyed_elem_of k keys r : by_ r = Some k → keyed by_ keys r ↔ k ∈ keys.
Proof. unfold keyed. by intros ->. Qed.

Lemma sum_one_key (r : Row) (a : Z) keys :
  NoDup keys →
  sum_skipna ((λ k, Some (if decide (by_ r = Some k) then a else 0)) <$> keys)
  = if decide (keyed by_ keys r) then a else 0.
Proof.
  induction 1 as [|k keys Hk Hnd IH].
  { by rewrite decide_False by apply keyed_nil. }
  rewrite fmap_cons, sum_skipna_cons, IH. simpl.
  destruct (decide (by_ r = Some k)) as [Hr|Hr].
  - rewrite (decide_True (P := keyed by_ (k :: keys) r))
      by (apply keyed_cons; by left).
    rewrite (decide_False (P := keyed by_ keys r))
      by (by rewrite (keyed_elem_of k)).
    lia.
  - rewrite (decide_ext (keyed by_ (k :: keys) r) (keyed by_ keys r))
      by (rewrite keyed_cons; tauto).
    lia.
Qed.

(** The totals of distinct keys add up to the fatalities of the rows that
    have one of these keys. *)
Lemma totals_add_up keys df :
  NoDup keys →
  sum_skipna ((λ k, Some (total by_ df k)) <$> keys)
  = sum_of_fatalities (filter (keyed by_ keys) df).
Proof.
  intros Hnd. unfold sum_of_fatalities.
  induction df as [|r df IH].
  { clear. induction keys as [|k keys IH]; [done|].
    by rewrite fmap_cons, sum_skipna_cons, IH. }
  assert (Hsplit : sum_skipna ((λ k, Some (total by_ (r :: df) k)) <$> keys)
            = sum_skipna ((λ k, Some (if decide (by_ r = Some k)
                                      then default 0 (fatalities_air r)
                                      else 0)) <$> keys)
              + sum_skipna ((λ k, Some (total by_ df k)) <$> keys)).
  { clear. induction keys as [|k keys IH]; [done|].
    rewrite !fmap_cons, !sum_skipna_cons, IH, total_cons. simpl. lia. }
  rewrite Hsplit, IH, sum_one_key by done. rewrite filter_cons.
  destruct (decide _); [rewrite fmap_cons; simpl|]; lia.
Qed.

Lemma filter_keyed_all keys df :
  (∀ k, Some k ∈ by_ <$> df → k ∈ keys) →
  filter (keyed by_ keys) df = filter (λ r, is_Some (by_ r)) df.
Proof.
  intros Hkeys. induction df as [|r df IH]; [done|].
  rewrite !filter_cons, IH.
  2:{ intros k Hk. apply Hkeys. rewrite fmap_cons. by right. }
  apply decide_ext. destruct (by_ r) as [k|] eqn:Hr.
  - rewrite (keyed_elem_of k) by done. split; [eauto|].
    intros _. apply Hkeys. rewrite fmap_cons, Hr. left.
  - unfold keyed. rewrite Hr. split; [done|]. by intros [? ?].
Qed.

(** The group totals of a plain key column add up to the fatalities of the
    rows whose key is not null. *)
Lemma groupby_sum_total (sort_keys : list K → list K) df :
  (∀ l, sort_keys l ≡ₚ l) →
  series_total (groupby_sum sort_keys by_ df)
  = sum_of_fatalities (filter (λ r, is_Some (by_ r)) df).
Proof.
  intros Hsort.
  destruct (groupby_keys by_ sort_keys df Hsort) as [Hnd Hkeys].
  unfold series_total, groupby_sum.
  rewrite <-list_fmap_compose.
  rewrite <-(filter_keyed_all (sort_keys (unique (omap by_ df)))).
  - by apply totals_add_up.
  - intros k. apply Hkeys.
Qed.
End totals.

Lemma filter_iff_in `{!∀ x : A, Decision (P x), !∀ x : A, Decision (Q x)}
    (l : list A) :
  (∀ x, x ∈ l → P x ↔ Q x) → filter P l = filter Q l.
Proof.
  induction l as [|x l IH]; intros HPQ; [done|].
  rewrite !filter_cons, IH by (intros y Hy; apply HPQ; by right).
  apply decide_ext, HPQ. left.
Qed.

Lemma sum_of_fatalities_split `{!∀ r : Row, Decision (P r)} (df : list Row) :
  sum_of_fatalities df
  = sum_of_fatalities (filter P df)
    + sum_of_fatalities (filter (λ r, ¬ P r) df).
Proof.
  unfold sum_of_fatalities. rewrite <-sum_skipna_app, <-fmap_app.
  apply sum_skipna_Permutation. by rewrite filter_app_complement.
Qed.

(** With no more than [n] keys, [nlargest n] returns the whole Series, in
    another order. *)
Lemma nlargest_all {K} (t : K → Z) (n : nat) (keys : list K) :
  NoDup keys → (length keys ≤ n)%nat →
  nlargest n ((λ k, (k, Some (t k))) <$> keys)
  ≡ₚ (λ k, (k, Some (t k))) <$> keys.
Proof.
  intros Hnd Hlen.
  destruct (nlargest_totals t n keys Hnd) as (Hres & Htop & Hsub & Hl & _).
  rewrite Hres. apply fmap_Permutation.
  apply submseteq_length_Permutation; [by apply NoDup_submseteq|]. lia.
Qed.

Lemma series_total_Permutation {K} (s s' : Series K) :
  s ≡ₚ s' → series_total s = series_total s'.
Proof.
  intros Hs. unfold series_total. apply sum_skipna_Permutation.
  by rewrite Hs.
Qed.

(** Every row of a view of the canonical table is a cleaned row of the
    file. *)
Lemma view_rows (csv : list RawRow) (selected : list (Key * list Value))
    (r : Row) :
  r ∈ apply_filters selected (load_data csv) →
  ∃ raw, raw ∈ csv ∧ r = load_row raw.
Proof.
  rewrite apply_filters_keeps, list_elem_of_filter. intros [_ Hr].
  by apply load_data_rows.
Qed.

(** X10: as long as the fatality counts are within the range where pandas
    adds exactly, the per-year totals behind the top-years chart add up to
    the fatalities of the rows that have a year; together with the
    fatalities of the rows without a year they give the "Total Fatalities"
    metric.  With five years or fewer in the view the chart shows all of
    them. *)
Theorem year_totals_add_up (df : list Row) :
  exact_sums df →
  series_total (groupby_sum sort_Z year df)
    = sum_of_fatalities (filter (λ r, is_Some (year r)) df)
  ∧ sum_of_fatalities df
    = series_total (groupby_sum sort_Z year df)
      + sum_of_fatalities (filter (λ r, ¬ is_Some (year r)) df)
  ∧ ((length (unique (omap year df)) ≤ 5)%nat →
     series_total (crashes_per_year df)
     = sum_of_fatalities (filter (λ r, is_Some (year r)) df)).
Proof.
  intros _.
  pose proof (groupby_sum_total year sort_Z df sort_Z_Permutation) as Htot.
  split; [exact Htot|]. split.
  { rewrite Htot. apply sum_of_fatalities_split. }
  intros Hlen. rewrite <-Htot. apply series_total_Permutation.
  apply nlargest_all.
  - apply (groupby_keys year sort_Z df sort_Z_Permutation).
  - by rewrite sort_Z_Permutation.
Qed.

Lemma year_totals_add_up_witness :
  series_total (crashes_per_year (load_data with_duplicate))
  = sum_of_fatalities
      (filter (λ r, is_Some (year r)) (load_data with_duplicate)).
Proof.
  apply (proj2 (proj2 (year_totals_add_up (load_data with_duplicate)
                         ltac:(by vm_compute)))).
  vm_compute. lia.
Defined.

(** X11: in every view of the canonical table each row has a country and a
    manufacturer, so, as long as the fatality counts are within the range
    where pandas adds exactly, the per-country and the per-manufacturer
    totals each add up to the "Total Fatalities" metric; with five
    countries (or manufacturers) or fewer in the view the chart shows the
    whole of it. *)
Theorem country_totals_add_up (csv : list RawRow)
    (selected : list (Key * list Value)) :
  let view := apply_filters selected (load_data csv) in
  exact_sums view →
  series_total (groupby_sum sort_string country_region view)
    = sum_of_fatalities view
  ∧ series_total (groupby_sum sort_string aircraft_manufacturer view)
    = sum_of_fatalities view
  ∧ ((length (unique (omap country_region view)) ≤ 5)%nat →
     series_total (top_countries view) = sum_of_fatalities view)
  ∧ ((length (unique (omap aircraft_manufacturer view)) ≤ 5)%nat →
     series_total (top_manufacturers view) = sum_of_fatalities view).
Proof.
  intros view _.
  assert (Hall : ∀ by_ : Row → option string,
            (∀ raw, is_Some (by_ (load_row raw))) →
            filter (λ r, is_Some (by_ r)) view = view).
  { intros by_ Hby. apply filter_all. intros r Hr.
    apply view_rows in Hr as (raw & _ & ->). apply Hby. }
  assert (Hc : series_total (groupby_sum sort_string country_region view)
               = sum_of_fatalities view).
  { rewrite groupby_sum_total by apply sort_string_Permutation.
    rewrite Hall; [done|]. intros raw. simpl. unfold fillna. eauto. }
  assert (Hm : series_total
                 (groupby_sum sort_string aircraft_manufacturer view)
               = sum_of_fatalities view).
  { rewrite groupby_sum_total by apply sort_string_Permutation.
    rewrite Hall; [done|]. intros raw. simpl. unfold fillna. eauto. }
  split; [exact Hc|]. split; [exact Hm|]. split.
  - intros Hlen. rewrite <-Hc. apply series_total_Permutation.
    apply nlargest_all.
    + apply (groupby_keys country_region sort_string view
               sort_string_Permutation).
    + by rewrite sort_string_Permutation.
  - intros Hlen. rewrite <-Hm. apply series_total_Permutation.
    apply nlargest_all.
    + apply (groupby_keys aircraft_manufacturer sort_string view
               sort_string_Permutation).
    + by rewrite sort_string_Permutation.
Qed.

Lemma country_totals_add_up_witness :
  series_total (top_countries (apply_filters [] (load_data with_duplicate)))
  = sum_of_fatalities (apply_filters [] (load_data with_duplicate)).
Proof.
  destruct (country_totals_add_up with_duplicate [] ltac:(by vm_compute))
    as (_ & _ & Htop & _).
  apply Htop. vm_compute. lia.
Defined.

Lemma series_total_totals {K} (t : K → Z) (keys : list K) :
  series_total ((λ k, (k, Some (t k))) <$> keys)
  = sum_skipna ((λ k, Some (t k)) <$> keys).
Proof. unfold series_total. by rewrite <-list_fmap_compose. Qed.

(** The month name of a cleaned row is a calendar name. *)
Lemma month_name_calendar (raw : RawRow) (m : string) :
  month_name (load_row raw) = Some m → m ∈ calendar.
Proof.
  simpl. destruct (to_datetime _ _) as [t|]; [|done]. simpl.
  apply list_elem_of_lookup_2.
Qed.

Lemma monthly_fatalities_months (df : list Row) :
  monthly_fatalities df
  = (λ m, (m, Some (total month_name df m)))
      <$> filter (λ m, Some m ∈ month_name <$> df) calendar.
Proof.
  unfold monthly_fatalities, groupby_sum. rewrite dropna_reindex.
  f_equal. apply list_filter_iff. intros m.
  apply (groupby_keys month_name sort_string df sort_string_Permutation).
Qed.

(** X12: in a view of the canonical table the reindexing onto the calendar
    loses no group: as long as the fatality counts are within the range
    where pandas adds exactly, the monthly totals add up to the fatalities
    of the rows that have a month name; and the month axis lists calendar
    months in calendar order, each once. *)
Theorem month_totals_add_up (csv : list RawRow)
    (selected : list (Key * list Value)) :
  let view := apply_filters selected (load_data csv) in
  (exact_sums view →
   series_total (monthly_fatalities view)
   = sum_of_fatalities (filter (λ r, is_Some (month_name r)) view))
  ∧ month_axis view `sublist_of` calendar
  ∧ NoDup (month_axis view).
Proof.
  intros view.
  assert (Hcal : NoDup calendar) by by_decide.
  assert (Haxis : month_axis view
                  = filter (λ m, Some m ∈ month_name <$> view) calendar).
  { unfold month_axis. rewrite monthly_fatalities_months.
    rewrite <-list_fmap_compose. apply list_fmap_id. }
  split; [|rewrite Haxis; split;
             [apply sublist_filter|by apply NoDup_filter]].
  intros _.
  rewrite monthly_fatalities_months, series_total_totals.
  rewrite (totals_add_up month_name) by by apply NoDup_filter.
  f_equal. apply filter_iff_in. intros r Hr.
  destruct (month_name r) as [m|] eqn:Hm.
  - rewrite (keyed_elem_of month_name m) by done.
    rewrite list_elem_of_filter. split; [eauto|]. intros _. split.
    + apply list_elem_of_fmap. eauto.
    + apply view_rows in Hr as (raw & _ & ->).
      by apply (month_name_calendar raw).
  - unfold keyed. rewrite Hm. split; [done|]. by intros [? ?].
Qed.

Lemma month_totals_add_up_witness :
  series_total (monthly_fatalities (apply_filters [] (load_data two_months)))
  = sum_of_fatalities
      (filter (λ r, is_Some (month_name r))
         (apply_filters [] (load_data two_months))).
Proof.
  apply (proj1 (month_totals_add_up two_months [])). by vm_compute.
Defined.

(** A year gets a bin exactly when it lies within the outer edges. *)
Lemma cut_in_bins (y : option Z) :
  (∃ b, cut bins labels y = Some b ∧ b ∈ labels) ↔ in_bins y.
Proof.
  destruct y as [y|]; [|simpl; naive_solver].
  unfold in_bins. rewrite cut_bins. split.
  - intros (b & Hb & _). revert Hb. split_bins; (done || lia).
  - intros Hy. split_bins; try lia;
      (eexists; split; [reflexivity|by_decide]).
Qed.

(** X13: in a view of the canonical table, as long as the fatality counts
    are within the range where pandas adds exactly, the decade totals add
    up to the fatalities of the rows whose year lies in 1908..2024,
    whether the empty bins are listed (with total 0) or left out. *)
Theorem decade_totals_add_up (observed : bool) (csv : list RawRow)
    (selected : list (Key * list Value)) :
  let view := apply_filters selected (load_data csv) in
  exact_sums view →
  series_total (decade_counts observed view)
  = sum_of_fatalities (filter (λ r, in_bins (year r)) view).
Proof.
  intros view _.
  assert (Hlabels : NoDup labels) by by_decide.
  unfold decade_counts, groupby_categorical_sum.
  rewrite dropna_totals, series_total_totals.
  rewrite (totals_add_up year_bin)
    by (destruct observed; [by apply NoDup_filter|done]).
  f_equal. apply filter_iff_in. intros r Hr.
  pose proof Hr as Hraw. apply view_rows in Hraw as (raw & _ & Hraw).
  rewrite <-cut_in_bins. unfold keyed.
  assert (Hbin : year_bin r = cut bins labels (year r)) by by subst r.
  rewrite <-Hbin. destruct (year_bin r) as [b|] eqn:Hb; [|naive_solver].
  destruct observed.
  - rewrite list_elem_of_filter. split.
    + intros [_ Hl]. eauto.
    + intros (b' & [= <-] & Hl). split; [|done].
      apply list_elem_of_fmap. eauto.
  - naive_solver.
Qed.

Lemma decade_totals_add_up_witness :
  series_total (decade_counts true (apply_filters [] (load_data six_years)))
  = sum_of_fatalities
      (filter (λ r, in_bins (year r)) (apply_filters [] (load_data six_years))).
Proof.
  apply (decade_totals_add_up true six_years []). by vm_compute.
Defined.

(** ** The other top-five charts and the empty charts (lines 107-161) *)

Lemma nlargest_groupby `{EqDecision K} (by_ : Row → option K)
    (sort_keys : list K → list K) (df : list Row) :
  (∀ l, sort_keys l ≡ₚ l) →
  let res := nlargest 5 (groupby_sum sort_keys by_ df) in
  res = (λ k, (k, Some (total by_ df k))) <$> res.*1
  ∧ largest_totals 5 by_ df res.*1.
Proof.
  intros Hsort.
  destruct (groupby_keys by_ sort_keys df Hsort) as [Hnd Hkeys].
  destruct (nlargest_totals (total by_ df) 5 _ Hnd)
    as (Hres & Htop & Hsub & Hlen & Hsorted & Hmax).
  intros res. split; [exact Hres|]. split; [exact Htop|]. split.
  { intros k Hk. by apply Hkeys, Hsub. }
  split.
  { unfold res, groupby_sum. rewrite Hlen. by rewrite Hsort. }
  split; [exact Hsorted|].
  intros k k' Hk Hk'. apply Hmax; [done|]. by apply Hkeys.
Qed.

(** X14: the top-countries and the top-manufacturers aggregates return the
    countries (manufacturers) with the five largest fatality totals of the
    view, each with the total of its rows, the largest first; fewer than
    five if the view has fewer. *)
Theorem top_countries_and_manufacturers (df : list Row) :
  top_countries df
    = (λ k, (k, Some (total country_region df k))) <$> (top_countries df).*1
  ∧ largest_totals 5 country_region df (top_countries df).*1
  ∧ top_manufacturers df
    = (λ k, (k, Some (total aircraft_manufacturer df k)))
        <$> (top_manufacturers df).*1
  ∧ largest_totals 5 aircraft_manufacturer df (top_manufacturers df).*1.
Proof.
  destruct (nlargest_groupby country_region sort_string df
              sort_string_Permutation) as [Hc1 Hc2].
  destruct (nlargest_groupby aircraft_manufacturer sort_string df
              sort_string_Permutation) as [Hm1 Hm2].
  done.
Qed.

Lemma top_countries_and_manufacturers_witness :
  total country_region (load_data with_duplicate) "Unknown" = 619.
Proof.
  destruct (top_countries_and_manufacturers (load_data with_duplicate))
    as (Heq & _).
  assert (Hin : ("Unknown", Some 619) ∈ top_countries (load_data with_duplicate))
    by by_decide.
  rewrite Heq in Hin.
  apply list_elem_of_fmap in Hin as (k & [= <- Hk] & _). by symmetry.
Defined.

Lemma filter_none `{!∀ x : A, Decision (P x)} (l : list A) :
  (∀ x, x ∈ l → ¬ P x) → filter P l = [].
Proof.
  induction l as [|x l IH]; intros Hl; [done|].
  rewrite filter_cons_False by (apply Hl; left).
  apply IH. intros y Hy. apply Hl. by right.
Qed.

Lemma omap_nil_iff `{EqDecision K} (by_ : Row → option K) (df : list Row) :
  unique (omap by_ df) = [] ↔ Forall (λ r, by_ r = None) df.
Proof.
  rewrite Forall_forall. split.
  - intros Hnil r Hr. destruct (by_ r) as [k|] eqn:Hk; [|done].
    assert (Hin : k ∈ unique (omap by_ df)).
    { rewrite elem_of_unique, list_elem_of_omap. eauto. }
    rewrite Hnil in Hin. by apply elem_of_nil in Hin.
  - intros Hall. destruct (unique _) as [|k l] eqn:Hu; [done|].
    assert (Hin : k ∈ unique (omap by_ df)) by (rewrite Hu; left).
    rewrite elem_of_unique, list_elem_of_omap in Hin.
    destruct Hin as (r & Hr & Hk). rewrite (Hall r Hr) in Hk. done.
Qed.

(** A top-five aggregate is empty exactly when every row of the view has a
    null key. *)
Lemma nlargest_groupby_nil `{EqDecision K} (by_ : Row → option K)
    (sort_keys : list K → list K) (df : list Row) :
  (∀ l, sort_keys l ≡ₚ l) →
  nlargest 5 (groupby_sum sort_keys by_ df) = []
  ↔ Forall (λ r, by_ r = None) df.
Proof.
  intros Hsort. rewrite <-omap_nil_iff.
  destruct (nlargest_groupby by_ sort_keys df Hsort)
    as (_ & _ & _ & Hlen & _).
  rewrite length_fmap in Hlen. split.
  - intros Hnil. rewrite Hnil in Hlen. change (length []) with 0%nat in Hlen.
    apply nil_length_inv. lia.
  - intros Hnil. rewrite Hnil in Hlen. by apply nil_length_inv.
Qed.

(** X15: the top-years chart is replaced by the "No data to display"
    notice exactly when no row of the view has a year; in particular on the
    empty view. *)
Theorem top_years_guard (df : list Row) :
  (top_years_chart_shown df = false ↔ Forall (λ r, year r = None) df)
  ∧ (top_years_chart_shown df = true ↔ Exists (λ r, is_Some (year r)) df)
  ∧ top_years_chart_shown [] = false.
Proof.
  assert (Hoff : top_years_chart_shown df = false
                 ↔ Forall (λ r, year r = None) df).
  { rewrite <-(nlargest_groupby_nil year sort_Z df sort_Z_Permutation).
    unfold top_years_chart_shown, crashes_per_year.
    by destruct (nlargest 5 _). }
  split; [exact Hoff|]. split; [|done]. split.
  - intros Hon. destruct (decide (Exists (λ r, is_Some (year r)) df))
      as [|Hno]; [done|].
    apply not_Exists_Forall in Hno; [|intros r; apply _].
    assert (Hall : Forall (λ r, year r = None) df).
    { eapply Forall_impl; [exact Hno|]. intros r Hr. simpl in Hr.
      destruct (year r); [destruct Hr; eauto|done]. }
    apply Hoff in Hall. congruence.
  - intros (r & Hr & [y Hy])%Exists_exists.
    destruct (top_years_chart_shown df); [done|].
    pose proof (proj1 Hoff eq_refl) as Hs. rewrite Forall_forall in Hs.
    rewrite (Hs r Hr) in Hy. done.
Qed.

(** X16: in a view of the canonical table the top-countries and the
    top-manufacturers charts, which the script draws unguarded, are empty
    only when the view has no row at all; the monthly chart is empty
    exactly when no row of the view has a month name. *)
Theorem unguarded_charts_empty (csv : list RawRow)
    (selected : list (Key * list Value)) :
  let view := apply_filters selected (load_data csv) in
  (top_countries view = [] ↔ view = [])
  ∧ (top_manufacturers view = [] ↔ view = [])
  ∧ (monthly_fatalities view = []
     ↔ Forall (λ r, month_name r = None) view).
Proof.
  intros view.
  assert (Hnone : ∀ by_ : Row → option string,
            (∀ raw, is_Some (by_ (load_row raw))) →
            Forall (λ r, by_ r = None) view ↔ view = []).
  { intros by_ Hby. split; [|by intros ->].
    destruct view as [|r l] eqn:Hv; [done|]. intros Hall.
    assert (Hr : r ∈ view) by (rewrite Hv; left).
    apply view_rows in Hr as (raw & _ & ->).
    apply Forall_cons in Hall as [Hnull _].
    destruct (Hby raw) as [k Hk]. congruence. }
  split; [|split].
  - unfold top_countries.
    rewrite (nlargest_groupby_nil country_region sort_string view
               sort_string_Permutation).
    apply Hnone. intros raw. simpl. unfold fillna. eauto.
  - unfold top_manufacturers.
    rewrite (nlargest_groupby_nil aircraft_manufacturer sort_string view
               sort_string_Permutation).
    apply Hnone. intros raw. simpl. unfold fillna. eauto.
  - rewrite monthly_fatalities_months, Forall_forall. split.
    + intros Hnil%fmap_nil_inv r Hr.
      destruct (month_name r) as [m|] eqn:Hm; [|done].
      assert (Hin : m ∈ filter (λ m, Some m ∈ month_name <$> view) calendar).
      { apply list_elem_of_filter. split.
        - apply list_elem_of_fmap. eauto.
        - apply view_rows in Hr as (raw & _ & ->).
          by apply (month_name_calendar raw). }
      rewrite Hnil in Hin. by apply elem_of_nil in Hin.
    + intros Hall.
      assert (filter (λ m, Some m ∈ month_name <$> view) calendar = [])
        as ->; [|done].
      apply filter_none. intros m _ Hin.
      apply list_elem_of_fmap in Hin as (r & Hm & Hr).
      rewrite (Hall r Hr) in Hm. done.
Qed.

Lemma top_years_guard_witness :
  top_years_chart_shown (load_data with_duplicate) = true.
Proof.
  apply (proj2 (proj1 (proj2 (top_years_guard (load_data with_duplicate))))).
  by_decide.
Defined.

Lemma unguarded_charts_empty_witness :
  top_countries
    (apply_filters [(KYear, [VNum 1977]); (KMonth, [VStr "August"])]
       (load_data two_crashes)) = [].
Proof.
  apply (proj2 (proj1 (unguarded_charts_empty two_crashes
                         [(KYear, [VNum 1977]); (KMonth, [VStr "August"])]))).
  reflexivity.
Defined.

(** ** Metrics (lines 86-95) *)

Lemma sum_skipna_nonnull {A} (cell : A → option Z) (l : list A) :
  sum_skipna (cell <$> filter (λ x, is_Some (cell x)) l)
  = sum_skipna (cell <$> l).
Proof.
  induction l as [|x l IH]; [done|].
  rewrite filter_cons, !fmap_cons, sum_skipna_cons, <-IH.
  destruct (decide (is_Some (cell x))) as [|Hx].
  - by rewrite fmap_cons, sum_skipna_cons.
  - destruct (cell x); [destruct Hx; eauto|]. simpl. lia.
Qed.

Lemma length_unique `{EqDecision A} (l : list A) :
  (length (unique l) ≤ length l)%nat.
Proof.
  induction l as [|x l IH]; simpl; [done|].
  pose proof (length_filter (λ y, y ≠ x) (unique l)). lia.
Qed.

Lemma length_omap_id {A} (cells : list (option A)) :
  (length (omap id cells) ≤ length cells)%nat.
Proof.
  induction cells as [|[x|] cells IH]; csimpl; lia.
Qed.

(** X17: the two sums of the metric tiles skip null cells (a row without
    [fatalities_air] or without [year] adds nothing), the number of unique
    aircraft never exceeds the number of rows and is 0 exactly when no row
    has an aircraft value (as when the column is absent), and on the empty
    view every metric is 0. *)
Theorem dashboard_metrics (aircraft : option nat) (df : list Row) :
  sum_of_fatalities df
    = sum_of_fatalities (filter (λ r, is_Some (fatalities_air r)) df)
  ∧ total_year df = total_year (filter (λ r, is_Some (year r)) df)
  ∧ (no_of_aircrafts aircraft df ≤ no_of_fatalities df)%nat
  ∧ (∀ i, no_of_aircrafts (Some i) df = 0%nat
          ↔ Forall (λ r, extra r !! i ≫= id = None) df)
  ∧ no_of_fatalities [] = 0%nat ∧ total_year [] = 0
  ∧ sum_of_fatalities [] = 0 ∧ no_of_aircrafts aircraft [] = 0%nat.
Proof.
  split; [symmetry; apply sum_skipna_nonnull|].
  split; [symmetry; apply sum_skipna_nonnull|].
  split.
  { unfold no_of_aircrafts, no_of_fatalities, nunique.
    destruct aircraft as [i|]; [|lia].
    pose proof (length_unique (omap id ((λ r, extra r !! i ≫= id) <$> df))).
    pose proof (length_omap_id ((λ r, extra r !! i ≫= id) <$> df)).
    rewrite length_fmap in *. lia. }
  split; [|by destruct aircraft].
  intros i. unfold no_of_aircrafts, nunique. rewrite !Forall_forall. split.
  - intros Hlen%nil_length_inv r Hr.
    destruct (extra r !! i ≫= id) as [a|] eqn:Ha; [|done].
    assert (Hin : a ∈ unique (omap id ((λ r, extra r !! i ≫= id) <$> df))).
    { rewrite elem_of_unique, list_elem_of_omap. exists (Some a).
      split; [|done]. apply list_elem_of_fmap. eauto. }
    rewrite Hlen in Hin. by apply elem_of_nil in Hin.
  - intros Hall.
    destruct (unique _) as [|a l] eqn:Hu; [done|].
    assert (Hin : a ∈ unique (omap id ((λ r, extra r !! i ≫= id) <$> df)))
      by (rewrite Hu; left).
    rewrite elem_of_unique, list_elem_of_omap in Hin.
    destruct Hin as (o & Ho & Ha). simpl in Ha. subst o.
    apply list_elem_of_fmap in Ho as (r & Hcell & Hr).
    rewrite (Hall r Hr) in Hcell. done.
Qed.

Lemma dashboard_metrics_witness :
  no_of_aircrafts (Some 0%nat) (load_data with_duplicate) = 0%nat.
Proof.
  destruct (dashboard_metrics (Some 0%nat) (load_data with_duplicate))
    as (_ & _ & _ & Hzero & _).
  apply Hzero. by_decide.
Defined.

(** ** Decade order (lines 42-48) *)

Lemma searchsorted_left_mono (a : list Z) (x y : Z) :
  x ≤ y → (searchsorted_left a x ≤ searchsorted_left a y)%nat.
Proof.
  intros Hxy. induction a as [|b a IH]; simpl; [done|].
  destruct (Z.ltb_spec b x), (Z.ltb_spec b y); lia.
Qed.

Lemma cut_Some (edges : list Z) (names : list string) (y : Z) :
  cut edges names (Some y)
  = if decide ((if decide (Some y = head edges) then 1%nat
                else searchsorted_left edges y) = length edges
               ∨ (if decide (Some y = head edges) then 1%nat
                  else searchsorted_left edges y) = 0%nat)
    then None
    else names !! ((if decide (Some y = head edges) then 1%nat
                    else searchsorted_left edges y) - 1)%nat.
Proof. done. Qed.

(** The position of the label that [cut] returns. *)
Lemma cut_position (y : Z) (b : string) :
  cut bins labels (Some y) = Some b →
  ∃ ids, labels !! (ids - 1)%nat = Some b
         ∧ (1 ≤ ids)%nat
         ∧ ids = (if decide (y = 1908) then 1%nat
                  else searchsorted_left bins y).
Proof.
  rewrite cut_Some. change (head bins) with (Some 1908).
  destruct (decide (y = 1908)) as [->|Hy].
  - rewrite (decide_True (P := Some 1908 = Some 1908)) by done.
    intros Hcut. exists 1%nat. by vm_compute in Hcut |- *.
  - rewrite (decide_False (P := Some y = Some 1908)) by congruence.
    destruct (decide _) as [|Hss]; [done|]. intros Hcut.
    exists (searchsorted_left bins y). split; [done|]. split; [lia|done].
Qed.

(** X18: the bins are in chronological order: of two years that both get a
    label, the later year never gets an earlier label, so the decade chart,
    which lists the labels in their fixed order, runs forward in time. *)
Theorem year_bin_chronological (y1 y2 : Z) (b1 b2 : string) (i j : nat) :
  y1 ≤ y2 →
  cut bins labels (Some y1) = Some b1 → cut bins labels (Some y2) = Some b2 →
  labels !! i = Some b1 → labels !! j = Some b2 →
  (i ≤ j)%nat.
Proof.
  intros Hle H1 H2 Hi Hj.
  assert (Hnd : NoDup labels) by by_decide.
  destruct (cut_position _ _ H1) as (ids1 & Hl1 & Hpos1 & Hids1).
  destruct (cut_position _ _ H2) as (ids2 & Hl2 & Hpos2 & Hids2).
  rewrite (NoDup_lookup _ _ _ _ Hnd Hi Hl1), (NoDup_lookup _ _ _ _ Hnd Hj Hl2).
  enough (ids1 ≤ ids2)%nat by lia.
  destruct (decide (y1 = 1908)) as [->|Hy1]; [lia|].
  destruct (decide (y2 = 1908)) as [->|Hy2].
  - assert (searchsorted_left bins y1 = 0%nat); [|lia].
    unfold bins. simpl. destruct (Z.ltb_spec 1908 y1); [lia|done].
  - subst. by apply searchsorted_left_mono.
Qed.

Lemma year_bin_chronological_witness : (5 ≤ 8)%nat.
Proof.
  apply (year_bin_chronological 1972 2016 "Late 1960s" "Early 2000s");
    (reflexivity || lia).
Defined.

(** ** Column names (lines 10-12) *)

Module ColumnNamesMore.
Import ColumnNames ColumnNamesFacts.

(** X19: a normalised column name is unchanged by lower-casing and holds no
    space, parenthesis or slash; the headers that the chain leaves as they
    are, are exactly the names of that form without whitespace at their
    ends (so a name the script looks up, such as [fatalities_air], is a
    fixed point). *)
Theorem normalize_output (M : StringMethods) (HM : Lawful M)
    (s : list (char M)) :
  lower M (normalize M s) = normalize M s
  ∧ (∀ c, c ∈ normalize M s → c ∉ special M)
  ∧ (normalize M s = s
     ↔ strip M s = s ∧ lower M s = s ∧ ∀ c, c ∈ s → c ∉ special M).
Proof.
  assert (Hlow : lower M (normalize M s) = normalize M s)
    by by apply (lower_normalize M HM s).
  assert (Hsp : ∀ c, c ∈ normalize M s → c ∉ special M).
  { intros c Hc. by apply (elem_of_normalize M HM) in Hc as [_ ?]. }
  split; [exact Hlow|]. split; [exact Hsp|]. split.
  - intros Heq. rewrite Heq in Hlow, Hsp. split; [|done].
    rewrite <-Heq at 2. symmetry. apply normalize_strip; [done|].
    apply (lower_normalize M HM s). intros c Hc.
    rewrite Heq. by apply elem_of_strip in Hc.
  - intros (Hstrip & Hlower & Hspecial).
    rewrite normalize_strip; [done|done|]. by rewrite Hstrip.
Qed.

Lemma normalize_output_witness :
  normalize ascii_methods (list_ascii_of_string "fatalities_air")
  = list_ascii_of_string "fatalities_air".
Proof.
  apply (proj2 (proj2 (proj2 (normalize_output ascii_methods ascii_lawful
                                (list_ascii_of_string "fatalities_air"))))).
  split; [reflexivity|]. split; [reflexivity|].
  intros c Hc Hsp. revert Hc. unfold special in Hsp. simpl in Hsp.
  rewrite !elem_of_cons, elem_of_nil in Hsp.
  destruct Hsp as [->|[->|[->|[->|[]]]]]; by_decide.
Defined.

End ColumnNamesMore.
